(** * Signal preconditioning for sEMG decomposition: [hyser/preprocessing.py]

    A shallow embedding of [extend_signal] and [whiten_signal] over a small
    model of the NumPy objects they manipulate.

    - An [ndarray] is a shape and a row-major buffer of binary64 values
      (Rocq's primitive floats are IEEE 754 binary64, NumPy's [float]).
    - Arrays live in a [store]; a Python name holds a location.  NumPy calls
      that build an array allocate a fresh location, a slice assignment
      updates the buffer of its target in place.
    - A computation is a function from the store to an outcome (a value or a
      raised exception) and the store it leaves behind.

    Inputs are arrays of dtype [float]; warnings (division by zero, invalid
    value) are not exceptions and leave no trace.

    Memory is unbounded in this model.  [Machine] has [np.zeros] and
    [extend_signal] with the limits of a 64-bit machine: the index range
    and an allocator that may fail.  The two agree whenever the allocation
    of the result is served.

    Two more parts of the code are embedded: the subplot grid of
    [semg_bss/plotting.py], on Python integers, and the loaders of
    [semg_bss/datasets/hyser/dataset.py], over strings and a reader of
    records that stands for [wfdb.rdsamp]. *)

From Stdlib Require Import ZArith Ascii String Floats Uint63.
From Stdlib Require DecimalString DecimalZ DecimalPos DecimalN.
From stdpp Require Import base list.

#[local] Open Scope Z_scope.
#[local] Set Warnings "-inexact-float".

(** ** Exceptions and the computation monad *)

(** The exception classes Python and NumPy raise on the paths modelled here.
    [Unmodelled] is no Python exception: it marks behaviour outside the
    model (a name bound to no object, which Python rules out, or an operand
    of a rank the paths below never produce). *)
Inductive exn : Type :=
  | ValueError
  | TypeError
  | IndexError
  | AxisError
  | LinAlgError
  | MemoryError
  | Unmodelled.

Definition exn_name (e : exn) : string :=
  match e with
  | ValueError => "ValueError"
  | TypeError => "TypeError"
  | IndexError => "IndexError"
  | AxisError => "AxisError"
  | LinAlgError => "LinAlgError"
  | MemoryError => "MemoryError"
  | Unmodelled => "Unmodelled"
  end.

Inductive outcome (T : Type) : Type :=
  | Ok (v : T)
  | Raise (e : exn).
Arguments Ok {T} v.
Arguments Raise {T} e.

Record ndarray : Type := mk_ndarray {
  shape : list nat;
  data : list float
}.

(** A location is an index into the store, the list of the arrays allocated
    so far. *)
Abbreviation loc := nat (only parsing).
Abbreviation store := (list ndarray) (only parsing).

Definition M (T : Type) : Type := store -> outcome T * store.

Definition ret {T} (v : T) : M T := fun σ => (Ok v, σ).
Definition raise {T} (e : exn) : M T := fun σ => (Raise e, σ).
Definition bind {A B} (c : M A) (k : A -> M B) : M B :=
  fun σ =>
    match c σ with
    | (Ok a, σ') => k a σ'
    | (Raise e, σ') => (Raise e, σ')
    end.

Notation "'let*' x ':=' c 'in' k" := (bind c (fun x => k))
  (at level 10, x pattern, c at level 100, k at level 200).

(** [for a in l: body(a)] *)
Fixpoint for_each {A} (l : list A) (body : A -> M unit) : M unit :=
  match l with
  | [] => ret tt
  | a :: l' => let* _ := body a in for_each l' body
  end.

(** [range(r)] for a Python integer [r]: empty when [r <= 0]. *)
Definition py_range (r : Z) : list Z :=
  Z.of_nat <$> seq 0 (Z.to_nat r).

(** ** Arrays *)

Definition size_of (sh : list nat) : nat := foldr Nat.mul 1%nat sh.

(** An array is well formed when its buffer holds one value per index. *)
Definition wf (a : ndarray) : Prop := length (data a) = size_of (shape a).

(** Entry [(i, j)] of a two-dimensional array, [None] out of range. *)
Definition get2 (a : ndarray) (i j : nat) : option float :=
  match shape a with
  | [n; m] => if bool_decide (i < n ∧ j < m)%nat then data a !! (i * m + j)%nat else None
  | _ => None
  end.

(** Build a two-dimensional array from equally long rows. *)
Definition of_rows (m : nat) (rows : list (list float)) : ndarray :=
  {| shape := [length rows; m]; data := concat rows |}.

Definition alloc (a : ndarray) : M loc :=
  fun σ => (Ok (length σ), σ ++ [a]).

Definition load (x : loc) : M ndarray :=
  fun σ => match σ !! x with
           | Some a => (Ok a, σ)
           | None => (Raise Unmodelled, σ)
           end.

(** [x.shape] *)
Definition np_shape (x : loc) : M (list nat) :=
  let* a := load x in ret (shape a).

(** [a, b = t] for a tuple of integers [t]. *)
Definition unpack2 (t : list nat) : M (Z * Z) :=
  match t with
  | [a; b] => ret (Z.of_nat a, Z.of_nat b)
  | _ => raise ValueError
  end.

(** [np.zeros(shape=sh, dtype=float)]: a negative dimension is refused.
    Memory is unbounded here; [Machine.np_zeros] below has the limits of a
    machine. *)
Definition np_zeros (sh : list Z) : M loc :=
  if forallb (fun d => 0 <=? d) sh then
    let sh' := Z.to_nat <$> sh in
    alloc {| shape := sh'; data := replicate (size_of sh') 0%float |}
  else raise ValueError.

(** A basic slice [start:stop] (step 1); a missing bound is [None]. *)
Record slice : Type := Slice { start : option Z; stop : option Z }.

Definition full : slice := Slice None None.

(** A slice bound on an axis of length [n], as [slice.indices] computes it:
    a negative bound counts from the end, and the result is clipped. *)
Definition clip_bound (n : nat) (v : Z) : nat :=
  Z.to_nat (if v <? 0 then Z.max (v + Z.of_nat n) 0 else Z.min v (Z.of_nat n)).

(** First index and length selected by a slice on an axis of length [n]. *)
Definition slice_bounds (s : slice) (n : nat) : nat * nat :=
  let lo := from_option (clip_bound n) 0%nat (start s) in
  let hi := from_option (clip_bound n) n (stop s) in
  (lo, (hi - lo)%nat).

(** A source extent broadcasts to a target extent when they agree or the
    source extent is 1. *)
Definition broadcasts (src tgt : nat) : bool :=
  (src =? tgt)%nat || (src =? 1)%nat.

(** The buffer of a [tc]-column target after copying a source window into the
    target window of [h] rows from [r0] and [w] columns from [c0].  The
    source has [sc] columns; its window starts at [(sr0, sc0)] and has
    extents [sh] by [sw]. *)
Definition blit (tc r0 h c0 w : nat) (sc sr0 sh sc0 sw : nat)
    (sdata tdata : list float) : list float :=
  imap (fun idx v =>
    let i := (idx / tc)%nat in
    let j := (idx mod tc)%nat in
    if bool_decide (r0 ≤ i < r0 + h ∧ c0 ≤ j < c0 + w)%nat then
      let si := (sr0 + (if (sh =? 1)%nat then 0 else i - r0))%nat in
      let sj := (sc0 + (if (sw =? 1)%nat then 0 else j - c0))%nat in
      default v (sdata !! (si * sc + sj)%nat)
    else v) tdata.

(** [tgt[rs, cs] = src[srs, scs]] on two-dimensional arrays.  The right-hand
    side is a view of [src]'s buffer, read when the assignment runs; only the
    buffer of [tgt] is written. *)
Definition setitem2 (tgt : loc) (rs cs : slice) (src : loc) (srs scs : slice) : M unit :=
  let* t := load tgt in
  let* s := load src in
  match shape t, shape s with
  | [tr; tc], [sr; sc] =>
      let '(r0, h) := slice_bounds rs tr in
      let '(c0, w) := slice_bounds cs tc in
      let '(sr0, sh) := slice_bounds srs sr in
      let '(sc0, sw) := slice_bounds scs sc in
      if broadcasts sh h && broadcasts sw w then
        fun σ =>
          (Ok tt,
           <[tgt := {| shape := shape t;
                       data := blit tc r0 h c0 w sc sr0 sh sc0 sw (data s) (data t) |}]> σ)
      else raise ValueError
  | _, _ => raise IndexError
  end.

(** ** [extend_signal] *)

Definition extend_signal (x : loc) (r : Z) : M loc :=
  let* sh := np_shape x in
  let* (n_obs, n_samples) := unpack2 sh in
  let n_obs_ext := n_obs * (r + 1) in
  let* x_ext := np_zeros [n_obs_ext; n_samples] in
  let* _ := setitem2 x_ext (Slice (Some 0) (Some n_obs)) full x full full in
  let* _ :=
    if negb (r =? 0) then
      for_each (py_range r) (fun i =>
        let start_row := n_obs * (i + 1) in
        let stop_row := n_obs * (i + 2) in
        setitem2 x_ext (Slice (Some start_row) (Some stop_row)) (Slice (Some (i + 1)) None)
                 x full (Slice None (Some (- (i + 1)))))
    else ret tt in
  ret x_ext.

(** ** [extend_signal] on a machine

    [np.zeros] refuses what a 64-bit machine cannot index, and fails when
    the machine cannot provide the buffer:

    - an extent that does not fit [npy_intp] raises [ValueError] (maximum
      allowed dimension exceeded);
    - a negative extent raises [ValueError];
    - a size in bytes beyond the largest [npy_intp] raises [ValueError]
      (array is too big); the size is checked as the item size times the
      extents other than zero, so an empty array with one huge extent is
      refused too;
    - the buffer is then requested from the allocator, and [MemoryError] is
      raised when the request fails.

    Whether a request is served is the machine's answer: [can_alloc b]
    tells it for a request of [b] bytes.  [extend_signal] allocates once, so
    one answer per call is all it sees. *)
Module Machine.

(** The largest [npy_intp], and the size of a [float] in bytes. *)
Definition intp_max : Z := 2 ^ 63 - 1.
Definition itemsize : Z := 8.

(** The size in bytes that is checked against [intp_max]. *)
Definition checked_nbytes (sh : list Z) : Z :=
  foldl (fun acc d => if d =? 0 then acc else acc * d) itemsize sh.

(** The size in bytes of the buffer. *)
Definition nbytes (sh : list Z) : Z := itemsize * foldr Z.mul 1 sh.

Section allocator.
Variable can_alloc : Z -> bool.

(** [np.zeros(shape=sh, dtype=float)] *)
Definition np_zeros (sh : list Z) : M loc :=
  if negb (forallb (fun d => d <=? intp_max) sh) then raise ValueError
  else if negb (forallb (fun d => 0 <=? d) sh) then raise ValueError
  else if intp_max <? checked_nbytes sh then raise ValueError
  else if negb (can_alloc (nbytes sh)) then raise MemoryError
  else
    let sh' := Z.to_nat <$> sh in
    alloc {| shape := sh'; data := replicate (size_of sh') 0%float |}.

Definition extend_signal (x : loc) (r : Z) : M loc :=
  let* sh := np_shape x in
  let* (n_obs, n_samples) := unpack2 sh in
  let n_obs_ext := n_obs * (r + 1) in
  let* x_ext := np_zeros [n_obs_ext; n_samples] in
  let* _ := setitem2 x_ext (Slice (Some 0) (Some n_obs)) full x full full in
  let* _ :=
    if negb (r =? 0) then
      for_each (py_range r) (fun i =>
        let start_row := n_obs * (i + 1) in
        let stop_row := n_obs * (i + 2) in
        setitem2 x_ext (Slice (Some start_row) (Some stop_row)) (Slice (Some (i + 1)) None)
                 x full (Slice None (Some (- (i + 1)))))
    else ret tt in
  ret x_ext.
End allocator.

End Machine.

(** ** NumPy operations used by [whiten_signal]

    Each NumPy call is a function of the contents of its arguments that
    allocates its result.  Shapes, allocation and raised exceptions are
    modelled in full.  Elementwise arithmetic is IEEE binary64.  The kernels
    whose order of evaluation or algorithm NumPy's interface leaves open are
    parameters: the mean of a vector, the inner product (BLAS), the power
    function and the symmetric eigensolver (LAPACK). *)

(** Allocate the result of an array-valued operation. *)
Definition new (r : outcome ndarray) : M loc :=
  match r with
  | Ok a => alloc a
  | Raise e => raise e
  end.

(** Entry of a buffer at a flat index. *)
Definition item (d : list float) (i : nat) : float := default 0%float (d !! i).

Definition float_of_nat (k : nat) : float := of_uint63 (Uint63.of_Z (Z.of_nat k)).

(** [x.squeeze()]: the shape without its axes of extent 1. *)
Definition squeeze (sh : list nat) : list nat := filter (fun d => d ≠ 1%nat) sh.

(** Broadcasting of two shapes, both given innermost axis first. *)
Fixpoint broadcast_rev (a b : list nat) : option (list nat) :=
  match a, b with
  | [], _ => Some b
  | _, [] => Some a
  | x :: a', y :: b' =>
      if (x =? y)%nat then cons x <$> broadcast_rev a' b'
      else if (x =? 1)%nat then cons y <$> broadcast_rev a' b'
      else if (y =? 1)%nat then cons x <$> broadcast_rev a' b'
      else None
  end.

(** The multi-index of a flat index, innermost axis first. *)
Fixpoint unravel_rev (sh_rev : list nat) (idx : nat) : list nat :=
  match sh_rev with
  | [] => []
  | d :: sh' => (idx mod d)%nat :: unravel_rev sh' (idx / d)%nat
  end.

(** The flat index an operand is read at for a multi-index of the broadcast
    result: an axis of extent 1 is read at 0, a missing axis is skipped. *)
Fixpoint offset_rev (sh_rev mi_rev : list nat) (stride : nat) : nat :=
  match sh_rev, mi_rev with
  | d :: sh', i :: mi' =>
      ((if (d =? 1)%nat then 0 else i) * stride + offset_rev sh' mi' (stride * d))%nat
  | _, _ => 0%nat
  end.

(** [a - b] with broadcasting. *)
Definition subtract (a b : ndarray) : outcome ndarray :=
  match broadcast_rev (rev (shape a)) (rev (shape b)) with
  | Some sh_rev =>
      Ok {| shape := rev sh_rev;
            data := (fun idx =>
                       let mi := unravel_rev sh_rev idx in
                       (item (data a) (offset_rev (rev (shape a)) mi 1)
                        - item (data b) (offset_rev (rev (shape b)) mi 1))%float)
                    <$> seq 0 (size_of sh_rev) |}
  | None => Raise ValueError
  end.

(** An elementwise operation with a scalar. *)
Definition map_array (f : float -> float) (a : ndarray) : outcome ndarray :=
  Ok {| shape := shape a; data := f <$> data a |}.

(** [np.diag(v)]: a diagonal matrix from a vector, the diagonal of a matrix. *)
Definition diag (a : ndarray) : outcome ndarray :=
  match shape a with
  | [n] =>
      Ok {| shape := [n; n];
            data := concat ((fun i => (fun j => if (i =? j)%nat then item (data a) i
                                                else 0%float) <$> seq 0 n) <$> seq 0 n) |}
  | [n; m] =>
      Ok {| shape := [Nat.min n m];
            data := (fun i => item (data a) (i * m + i)) <$> seq 0 (Nat.min n m) |}
  | _ => Raise ValueError
  end.

(** [a.T] of an array of at most two dimensions.  NumPy returns a view;
    nothing here writes through it, so it is modelled by its contents. *)
Definition transpose (a : ndarray) : outcome ndarray :=
  match shape a with
  | [] | [_] => Ok a
  | [n; m] =>
      Ok {| shape := [m; n];
            data := concat ((fun j => (fun i => item (data a) (i * m + j)) <$> seq 0 n)
                            <$> seq 0 m) |}
  | _ => Raise Unmodelled
  end.

Section numpy.
(** The arithmetic mean of a vector ([np.add.reduce] over the count). *)
Variable mean_k : list float -> float.
(** The inner product of two vectors. *)
Variable dot_k : list float -> list float -> float.
(** [np.power] on two scalars. *)
Variable pow_k : float -> float -> float.
(** The symmetric eigensolver on the buffer of an [n] by [n] matrix: the
    eigenvalues and the buffer of the eigenvector matrix, or [None] when
    the iteration does not converge. *)
Variable eigh_k : nat -> list float -> option (list float * list float).

(** [np.mean(a, axis=1, keepdims=True)] *)
Definition mean_axis1_keepdims (a : ndarray) : outcome ndarray :=
  match shape a with
  | d0 :: d1 :: rest =>
      let inner := size_of rest in
      Ok {| shape := d0 :: 1%nat :: rest;
            data := concat ((fun i => (fun k =>
                      mean_k ((fun j => item (data a) ((i * d1 + j) * inner + k)) <$> seq 0 d1))
                      <$> seq 0 inner) <$> seq 0 d0) |}
  | _ => Raise AxisError
  end.

(** [np.cov(m)]: rows are variables, columns observations; the estimate is
    normalised by [N - 1], and the result is squeezed. *)
Definition cov (a : ndarray) : outcome ndarray :=
  match shape a with
  | _ :: _ :: _ :: _ => Raise ValueError
  | sh =>
      let '(n, N) := match sh with
                     | [n; N] => (n, N)
                     | [N] => (1%nat, N)
                     | _ => (1%nat, 1%nat)
                     end in
      if (n =? 0)%nat then Ok {| shape := [0%nat; 0%nat]; data := [] |}
      else
        let row i := (fun j => item (data a) (i * N + j)) <$> seq 0 N in
        let centered i := let avg := mean_k (row i) in (fun v => v - avg)%float <$> row i in
        let fact := if Z.of_nat N - 1 <=? 0 then 0%float else float_of_nat (N - 1) in
        let scale := (1 / fact)%float in
        Ok {| shape := squeeze [n; n];
              data := concat ((fun i => (fun k =>
                        (dot_k (centered i) (centered k) * scale)%float)
                        <$> seq 0 n) <$> seq 0 n) |}
  end.

(** [a @ b] on two matrices. *)
Definition matmul (a b : ndarray) : outcome ndarray :=
  match shape a, shape b with
  | [n; k], [k'; m] =>
      if (k =? k')%nat then
        Ok {| shape := [n; m];
              data := concat ((fun i => (fun j =>
                        dot_k ((fun l => item (data a) (i * k + l)) <$> seq 0 k)
                              ((fun l => item (data b) (l * m + j)) <$> seq 0 k))
                        <$> seq 0 m) <$> seq 0 n) |}
      else Raise ValueError
  | _, _ => Raise Unmodelled
  end.

Definition np_mean_axis1_keepdims (x : loc) : M loc :=
  let* a := load x in new (mean_axis1_keepdims a).

Definition np_subtract (x y : loc) : M loc :=
  let* a := load x in let* b := load y in new (subtract a b).

Definition np_cov (x : loc) : M loc :=
  let* a := load x in new (cov a).

(** [np.linalg.eigh(a)]: the argument must be a square matrix.  Stacks of
    matrices (three or more dimensions) are outside the model; [np.cov]
    never returns one. *)
Definition np_linalg_eigh (x : loc) : M (loc * loc) :=
  let* a := load x in
  match shape a with
  | [] | [_] => raise LinAlgError
  | [n; n'] =>
      if (n =? n')%nat then
        match eigh_k n (data a) with
        | Some (w, v) =>
            let* eig_vals := alloc {| shape := [n]; data := w |} in
            let* eig_vecs := alloc {| shape := [n; n]; data := v |} in
            ret (eig_vals, eig_vecs)
        | None => raise LinAlgError
        end
      else raise LinAlgError
  | _ => raise Unmodelled
  end.

Definition np_map (f : float -> float) (x : loc) : M loc :=
  let* a := load x in new (map_array f a).

Definition np_diag (x : loc) : M loc :=
  let* a := load x in new (diag a).

Definition np_transpose (x : loc) : M loc :=
  let* a := load x in new (transpose a).

Definition np_matmul (x y : loc) : M loc :=
  let* a := load x in let* b := load y in new (matmul a b).

(** ** [whiten_signal] *)

Definition whiten_signal (x : loc) : M (loc * loc) :=
  let* x_mean := np_mean_axis1_keepdims x in
  let* x_center := np_subtract x x_mean in
  let* cov_mtx := np_cov x_center in
  let* (eig_vals, eig_vecs) := np_linalg_eigh cov_mtx in
  let eps := 1e-10%float in
  let* shifted := np_map (fun v => v + eps)%float eig_vals in
  let* root := np_map (fun v => pow_k v 0.5%float) shifted in
  let* inv_root := np_map (fun v => 1 / v)%float root in
  let* d := np_diag inv_root in
  let* vd := np_matmul eig_vecs d in
  let* eig_vecs_T := np_transpose eig_vecs in
  let* white_mtx := np_matmul vd eig_vecs_T in
  let* x_white := np_matmul white_mtx x_center in
  ret (x_white, white_mtx).

(** The arrays [whiten_signal] derives from eigenvalues [w]: [w + eps] with
    [eps = 1e-10], its power [0.5], and the reciprocal of that. *)
Definition shifted_of (n : nat) (w : list float) : ndarray :=
  {| shape := [n]; data := (fun e => e + 1e-10)%float <$> w |}.
Definition root_of (n : nat) (w : list float) : ndarray :=
  {| shape := [n]; data := (fun e => pow_k e 0.5%float) <$> data (shifted_of n w) |}.
Definition inv_root_of (n : nat) (w : list float) : ndarray :=
  {| shape := [n]; data := (fun e => 1 / e)%float <$> data (root_of n w) |}.

End numpy.

(** ** Calls

    A Python call binds its positional and keyword arguments to the
    parameters of the [def]; a parameter may carry a default. *)

Inductive pyval : Type :=
  | VArray (l : loc)
  | VInt (z : Z)
  | VFloat (f : float).

Definition params : Type := list (string * option pyval).

(** [def extend_signal(x: np.ndarray, r: int = 0)] *)
Definition extend_signal_params : params := [("x", None); ("r", Some (VInt 0))]%string.

(** [def whiten_signal(x: np.ndarray)] *)
Definition whiten_signal_params : params := [("x", None)]%string.

Definition assoc {V} (k : string) (l : list (string * V)) : option V :=
  snd <$> find (fun kv => String.eqb k (fst kv)) l.

(** The environment of a call: too many positional arguments, a keyword
    that names no parameter or one already bound, and a parameter left
    without a value all raise [TypeError]. *)
Definition bind_args (ps : params) (args : list pyval) (kwargs : list (string * pyval))
    : outcome (list (string * pyval)) :=
  if (length ps <? length args)%nat then Raise TypeError
  else
    let rest := drop (length args) ps in
    if forallb (fun kw => bool_decide (is_Some (assoc (fst kw) rest))) kwargs then
      match mapM (fun p => match assoc (fst p) kwargs with
                           | Some v => Some (fst p, v)
                           | None => pair (fst p) <$> snd p
                           end) rest with
      | Some bound => Ok (zip (fst <$> ps) args ++ bound)
      | None => Raise TypeError
      end
    else Raise TypeError.

Section calls.
Variable mean_k : list float -> float.
Variable dot_k : list float -> list float -> float.
Variable pow_k : float -> float -> float.
Variable eigh_k : nat -> list float -> option (list float * list float).

(** A call of [extend_signal] with the given arguments; values of another
    type than the annotated one are outside the model. *)
Definition call_extend_signal (args : list pyval) (kwargs : list (string * pyval)) : M loc :=
  match bind_args extend_signal_params args kwargs with
  | Ok env =>
      match assoc "x" env, assoc "r" env with
      | Some (VArray x), Some (VInt r) => extend_signal x r
      | _, _ => raise Unmodelled
      end
  | Raise e => raise e
  end.

(** A call of [whiten_signal] with the given arguments. *)
Definition call_whiten_signal (args : list pyval) (kwargs : list (string * pyval))
    : M (loc * loc) :=
  match bind_args whiten_signal_params args kwargs with
  | Ok env =>
      match assoc "x" env with
      | Some (VArray x) => whiten_signal mean_k dot_k pow_k eigh_k x
      | _ => raise Unmodelled
      end
  | Raise e => raise e
  end.
End calls.

(** ** Reference kernels

    Sequential IEEE evaluations of the mean and of the inner product.  On a
    vector of one element they agree with every order of evaluation. *)

Definition seq_mean (l : list float) : float :=
  (foldl PrimFloat.add 0 l / float_of_nat (length l))%float.

Definition seq_dot (a b : list float) : float :=
  foldl (fun acc uv => acc + fst uv * snd uv)%float 0%float (zip a b).

(** [x ** 0.5] evaluated as the correctly rounded square root. *)
Definition sqrt_pow (v p : float) : float := PrimFloat.sqrt v.

(** An eigensolver that answers NaN throughout, and one that reports that
    it did not converge: the two ways LAPACK builds respond to a matrix of
    NaN. *)
Definition eigh_nan (n : nat) (c : list float) : option (list float * list float) :=
  Some (replicate n nan, replicate (n * n) nan).
Definition eigh_fail (n : nat) (c : list float) : option (list float * list float) :=
  None.

(** ** Numerical instability *)

(** A run from [σ] to [σ'] has produced a non-finite value: some array that
    the run created holds a NaN or an infinity. *)
Definition produces_non_finite (σ σ' : store) : Prop :=
  ∃ (l : loc) (a : ndarray) (v : float),
    (length σ ≤ l)%nat ∧ σ' !! l = Some a ∧ v ∈ data a ∧ is_finite v = false.

(** With the given kernels, every run of [whiten_signal] on a matrix that
    produces a non-finite value ends in a [NumericalInstabilityError]. *)
Definition surfaces_instability
    (mean_k : list float -> float) (dot_k : list float -> list float -> float)
    (pow_k : float -> float -> float)
    (eigh_k : nat -> list float -> option (list float * list float)) : Prop :=
  ∀ (σ : store) (x : loc) (X : ndarray) (n m : nat),
    σ !! x = Some X -> shape X = [n; m] -> wf X ->
    produces_non_finite σ (whiten_signal mean_k dot_k pow_k eigh_k x σ).2 ->
    ∃ e, (whiten_signal mean_k dot_k pow_k eigh_k x σ).1 = Raise e ∧
         exn_name e = "NumericalInstabilityError"%string.

(** Two channels, one sample. *)
Definition two_by_one : ndarray := of_rows 1 [[1]; [2]]%float.

(** One channel, three samples. *)
Definition one_by_three : ndarray := of_rows 3 [[1; 2; 3]]%float.

(** ** Scenario A *)

Definition scenario_A : ndarray :=
  of_rows 5 [[1; 2; 3; 4; 5]; [5; 4; 3; 2; 1]]%float.

Definition scenario_A_ext : ndarray :=
  of_rows 5 [[1; 2; 3; 4; 5]; [5; 4; 3; 2; 1]; [0; 1; 2; 3; 4]; [0; 5; 4; 3; 2]]%float.

(** ** The delay embedding *)

(** Entry [j] of channel [c] delayed by [k] samples: zero while no history is
    available, then the signal [k] samples earlier. *)
Definition delayed (X : ndarray) (m k c j : nat) : float :=
  if (j <? k)%nat then 0%float
  else default 0%float (data X !! (c * m + (j - k))%nat).

(** The extended array once the blocks up to [k] have been written: block
    [b <= k] holds the signal delayed by [b], the later blocks are zero. *)
Definition ext_inv (X : ndarray) (n m r k : nat) (Y : ndarray) : Prop :=
  shape Y = [(n * (r + 1))%nat; m] ∧
  length (data Y) = (n * (r + 1) * m)%nat ∧
  ∀ b c j : nat, (b ≤ r)%nat -> (c < n)%nat -> (j < m)%nat ->
    data Y !! ((b * n + c) * m + j)%nat =
    Some (if (b <=? k)%nat then delayed X m b c j else 0%float).

(** ** Frames

    [c] keeps the arrays of [σ0]: run from any store that extends [σ0], it
    leaves a store that still extends [σ0] (no older array is written or
    removed), and a value it returns satisfies [Q]. *)
Definition keeps {T} (σ0 : store) (c : M T) (Q : T -> Prop) : Prop :=
  ∀ σ, σ0 `prefix_of` σ ->
    σ0 `prefix_of` (c σ).2 ∧ ∀ v, (c σ).1 = Ok v -> Q v.

(** A location allocated after [σ0]. *)
Definition fresh_for (σ0 : store) (l : loc) : Prop := (length σ0 ≤ l)%nat.

(** ** Subplot grids: [semg_bss/plotting.py]

    [plot_signal], [plot_correlation] and [raster_plot] lay their plots out
    on a grid of [n_cols] columns, and compute its number of rows with the
    same two lines. *)

(** The built-in exception of the computation below. *)
Inductive builtin_error : Type :=
  | ZeroDivisionError.

(** [mod = n % n_cols] and
    [n_rows = n // n_cols if mod == 0 else n // n_cols + mod],
    on Python integers: [//] and [%] round towards minus infinity, as
    [Z.div] and [Z.modulo] do, and raise when the divisor is zero. *)
Definition n_rows (n n_cols : Z) : builtin_error + Z :=
  if n_cols =? 0 then inl ZeroDivisionError
  else
    let mod_ := n mod n_cols in
    inr (if mod_ =? 0 then n / n_cols else n / n_cols + mod_).

(** ** Record paths and loaders: [semg_bss/datasets/hyser/dataset.py] *)

(** [str(z)] for a Python integer. *)
Definition py_str (z : Z) : string :=
  DecimalString.NilZero.string_of_int (Z.to_int z).

Fixpoint zeros (k : nat) : string :=
  match k with
  | O => EmptyString
  | S k' => String "0"%char (zeros k')
  end.

(** [format(z, "0<width>d")]: the sign, then zeros up to [width] characters,
    then the digits. *)
Definition format_0d (width : nat) (z : Z) : string :=
  let digits := py_str (Z.abs z) in
  let sign := if z <? 0 then "-"%string else EmptyString in
  String.append sign
    (String.append (zeros (width - String.length sign - String.length digits)) digits).

(** The reading of a formatted integer: an optional sign, then digits. *)
Definition parse_int (s : string) : option Z :=
  option_map Z.of_int (DecimalString.NilEmpty.int_of_string s).

Definition starts_with_sep (s : string) : bool :=
  match s with
  | String c _ => Ascii.eqb c "/"%char
  | EmptyString => false
  end.

Fixpoint ends_with_sep (s : string) : bool :=
  match s with
  | EmptyString => false
  | String c EmptyString => Ascii.eqb c "/"%char
  | String _ s' => ends_with_sep s'
  end.

(** One step of [posixpath.join]: an absolute component replaces the path,
    an empty path or one that ends with the separator takes the component
    as it is, any other path takes the separator first. *)
Definition join2 (path b : string) : string :=
  if starts_with_sep b then b
  else if String.eqb path EmptyString || ends_with_sep path then String.append path b
  else String.append path (String "/"%char b).

(** [os.path.join(a, *p)] on a POSIX system. *)
Definition os_path_join (a : string) (p : list string) : string := foldl join2 a p.

Definition task_types : list string := ["maintenance"; "dynamic"]%string.
Definition sig_types : list string := ["raw"; "preprocess"; "force"]%string.

(** [s in l] for a list of strings. *)
Definition py_in (s : string) (l : list string) : bool := existsb (String.eqb s) l.

(** The [path] of [load_pr]. *)
Definition pr_path (root : string) (gesture subject session trial task : Z)
    (task_type sig_type : string) : string :=
  os_path_join root
    ["pr_dataset"%string;
     format_0d 2 gesture;
     String.concat EmptyString
       ["subject"; format_0d 2 subject; "_session"; py_str session; "_"; task_type;
        "_"; sig_type; "_trial"; py_str trial; "_task"; py_str task]%string].

(** The [path] of [load_1dof]. *)
Definition onedof_path (root : string) (subject session task trial : Z)
    (sig_type : string) : string :=
  os_path_join root
    ["1dof_dataset"%string;
     String.concat EmptyString
       ["subject"; format_0d 2 subject; "_session"; py_str session]%string;
     String.concat EmptyString
       ["1dof_"; sig_type; "_finger"; py_str task; "_sample"; py_str trial]%string].

(** The [path] of [load_mvc]: subjects and sessions are shifted by one. *)
Definition mvc_path (root : string) (subject session task : Z)
    (direction sig_type : string) : string :=
  os_path_join
    (os_path_join root
       ["mvc_dataset"%string;
        String.concat EmptyString
          ["subject"; format_0d 2 (subject + 1); "_session"; py_str (session + 1)]%string;
        String.concat EmptyString
          ["mvc_"; sig_type; "_finger"; py_str task; "_"; direction]%string])
    [].

(** The [path] of [load_ndof]. *)
Definition ndof_path (root : string) (subject session combination trial : Z)
    (sig_type : string) : string :=
  os_path_join root
    ["ndof_dataset"%string;
     String.concat EmptyString
       ["subject"; format_0d 2 subject; "_session"; py_str session]%string;
     String.concat EmptyString
       ["ndof_"; sig_type; "_combination"; py_str combination; "_sample"; py_str trial]%string].

(** What a loader ends in: the array it returns, a failed assertion, or the
    exception raised by the reader.  [RankUnmodelled] is no outcome of the
    code: it marks a record that is no matrix, which the reader never
    returns. *)
Inductive loaded (E : Type) : Type :=
  | Loaded (a : ndarray)
  | AssertionFailed
  | ReadFailed (e : E)
  | RankUnmodelled.
Arguments Loaded {E} a.
Arguments AssertionFailed {E}.
Arguments ReadFailed {E} e.
Arguments RankUnmodelled {E}.

Section loaders.
(** The exceptions of the reader, and [wfdb.rdsamp]: the signals stored
    under a path, of shape [(n_samples, n_channels)], or the exception the
    reader raises.  Assertions are enabled. *)
Variable E : Type.
Variable rdsamp : string -> E + ndarray.

(** [data, _ = wfdb.rdsamp(path)] and [return data.T] *)
Definition read_transposed (path : string) : loaded E :=
  match rdsamp path with
  | inl e => ReadFailed e
  | inr data =>
      match transpose data with
      | Ok a => Loaded a
      | Raise _ => RankUnmodelled
      end
  end.

Definition load_pr (root : string) (gesture subject session trial task : Z)
    (task_type sig_type : string) : loaded E :=
  if negb (py_in task_type task_types) then AssertionFailed
  else if negb (py_in sig_type sig_types) then AssertionFailed
  else read_transposed (pr_path root gesture subject session trial task task_type sig_type).

Definition load_1dof (root : string) (subject session task trial : Z)
    (sig_type : string) : loaded E :=
  if negb (py_in sig_type sig_types) then AssertionFailed
  else read_transposed (onedof_path root subject session task trial sig_type).

Definition load_mvc (root : string) (subject session task : Z)
    (direction sig_type : string) : loaded E :=
  if negb (py_in sig_type sig_types) then AssertionFailed
  else read_transposed (mvc_path root subject session task direction sig_type).

Definition load_ndof (root : string) (subject session combination trial : Z)
    (sig_type : string) : loaded E :=
  if negb (py_in sig_type sig_types) then AssertionFailed
  else read_transposed (ndof_path root subject session combination trial sig_type).
End loaders.

(** What a loader makes of the answer of the reader: the exception of the
    reader, or the record with its two axes swapped. *)
Definition returns_transposed {E : Type} (r : E + ndarray) (l : loaded E) : Prop :=
  match r with
  | inl e => l = ReadFailed e
  | inr data =>
      ∃ a, l = Loaded a ∧ wf a ∧ shape a = rev (shape data) ∧
        ∀ c t, get2 a c t = get2 data t c
  end.

(** [c] occurs in [s]. *)
Fixpoint has_char (c : ascii) (s : string) : bool :=
  match s with
  | EmptyString => false
  | String a s' => Ascii.eqb a c || has_char c s'
  end.

(** The characters of a formatted integer. *)
Definition digit (c : ascii) : bool :=
  existsb (Ascii.eqb c) ["0"; "1"; "2"; "3"; "4"; "5"; "6"; "7"; "8"; "9"]%char.

Definition digit_or_sign (c : ascii) : bool := Ascii.eqb c "-" || digit c.

(** * Proofs *)

(** ** Reasoning about buffers *)

Lemma flat_index_div (m i j : nat) : (j < m)%nat -> ((i * m + j) / m = i)%nat.
Proof.
  intros Hj. symmetry. apply (Nat.div_unique _ _ _ j); lia.
Qed.

Lemma flat_index_mod (m i j : nat) : (j < m)%nat -> ((i * m + j) mod m = j)%nat.
Proof.
  intros Hj. symmetry. apply (Nat.mod_unique _ _ i); lia.
Qed.

Lemma flat_index_lt (n m i j : nat) : (i < n)%nat -> (j < m)%nat -> (i * m + j < n * m)%nat.
Proof. nia. Qed.

(** A broadcast extent of 1 reads index 0, which is the offset itself
    whenever the target extent agrees with the source extent. *)
Lemma broadcast_offset (h lo i : nat) :
  (lo ≤ i < lo + h)%nat -> (if (h =? 1)%nat then 0 else i - lo)%nat = (i - lo)%nat.
Proof.
  intros Hi. destruct (Nat.eqb_spec h 1); lia.
Qed.

Lemma lookup_blit tc r0 h c0 w sc sr0 sc0 sdata tdata (i j : nat) v :
  (j < tc)%nat ->
  tdata !! (i * tc + j)%nat = Some v ->
  blit tc r0 h c0 w sc sr0 h sc0 w sdata tdata !! (i * tc + j)%nat =
  Some (if bool_decide (r0 ≤ i < r0 + h ∧ c0 ≤ j < c0 + w)%nat
        then default v (sdata !! ((sr0 + (i - r0)) * sc + (sc0 + (j - c0)))%nat)
        else v).
Proof.
  intros Hj Hv. unfold blit. rewrite list_lookup_imap, Hv. simpl.
  rewrite flat_index_div, flat_index_mod by done.
  case_bool_decide as Hw; [|done].
  rewrite !broadcast_offset by lia. done.
Qed.

Lemma length_blit tc r0 h c0 w sc sr0 sh sc0 sw sdata tdata :
  length (blit tc r0 h c0 w sc sr0 sh sc0 sw sdata tdata) = length tdata.
Proof. unfold blit. by rewrite length_imap. Qed.

(** ** Running computations *)

Lemma bind_ok {A B} (c : M A) (k : A -> M B) σ a σ' :
  c σ = (Ok a, σ') -> bind c k σ = k a σ'.
Proof. unfold bind. by intros ->. Qed.

Lemma bind_raise {A B} (c : M A) (k : A -> M B) σ e σ' :
  c σ = (Raise e, σ') -> bind c k σ = (Raise e, σ').
Proof. unfold bind. by intros ->. Qed.

Lemma load_ok (x : loc) (σ : store) a : σ !! x = Some a -> load x σ = (Ok a, σ).
Proof. unfold load. by intros ->. Qed.

Lemma store_snoc_old (σ : store) (a b : ndarray) (x : loc) :
  σ !! x = Some a -> (σ ++ [b]) !! x = Some a.
Proof. intros H. by apply lookup_app_l_Some. Qed.

Lemma store_snoc_new (σ : store) (b : ndarray) : (σ ++ [b]) !! length σ = Some b.
Proof. by rewrite lookup_app_r, Nat.sub_diag by lia. Qed.

Lemma store_snoc_insert (σ : store) (b b' : ndarray) :
  <[length σ := b']> (σ ++ [b]) = σ ++ [b'].
Proof. by rewrite insert_app_r_alt, Nat.sub_diag by lia. Qed.

Lemma size_of_2 (a b : nat) : size_of [a; b] = (a * b)%nat.
Proof. unfold size_of. simpl. lia. Qed.

Lemma np_zeros_2 (a b : nat) (σ : store) :
  np_zeros [Z.of_nat a; Z.of_nat b] σ =
  (Ok (length σ), σ ++ [{| shape := [a; b]; data := replicate (a * b) 0%float |}]).
Proof.
  unfold np_zeros. simpl.
  destruct (Z.leb_spec 0 (Z.of_nat a)); [|lia].
  destruct (Z.leb_spec 0 (Z.of_nat b)); [|lia].
  simpl. unfold alloc. rewrite !Nat2Z.id. by rewrite Nat.mul_1_r.
Qed.

(** Slice bounds are settled by case analysis on the sign tests. *)
Ltac slice_arith :=
  unfold slice_bounds, full; cbn [start stop from_option]; unfold clip_bound;
  repeat match goal with
         | |- context [Z.ltb ?a ?b] => destruct (Z.ltb_spec a b)
         end;
  f_equal; lia.

(** A slice assignment into the array allocated last, from an older array,
    whose windows have equal extents. *)
Lemma setitem2_last (σ : store) (x : loc) (X Y : ndarray) rs cs srs scs
    tr tc sr sc r0 h c0 w sr0 sc0 :
  σ !! x = Some X ->
  shape X = [sr; sc] -> shape Y = [tr; tc] ->
  slice_bounds rs tr = (r0, h) -> slice_bounds cs tc = (c0, w) ->
  slice_bounds srs sr = (sr0, h) -> slice_bounds scs sc = (sc0, w) ->
  setitem2 (length σ) rs cs x srs scs (σ ++ [Y]) =
  (Ok tt, σ ++ [{| shape := [tr; tc];
                   data := blit tc r0 h c0 w sc sr0 h sc0 w (data X) (data Y) |}]).
Proof.
  intros Hx HX HY Hrs Hcs Hsrs Hscs. unfold setitem2.
  rewrite (bind_ok _ _ _ Y (σ ++ [Y])) by (apply load_ok, store_snoc_new).
  rewrite (bind_ok _ _ _ X (σ ++ [Y])) by (by apply load_ok, store_snoc_old).
  rewrite HX, HY, Hrs, Hcs, Hsrs, Hscs.
  unfold broadcasts. rewrite !Nat.eqb_refl. simpl.
  by rewrite store_snoc_insert.
Qed.

Section loop.
Variables (σ : store) (x : loc) (X : ndarray) (n m r : nat).
Hypothesis Hx : σ !! x = Some X.
Hypothesis HX : shape X = [n; m].
Hypothesis HwfX : wf X.

Lemma source_entry (c j : nat) :
  (c < n)%nat -> (j < m)%nat -> is_Some (data X !! (c * m + j)%nat).
Proof using HX HwfX.
  intros Hc Hj. apply lookup_lt_is_Some.
  unfold wf in HwfX. rewrite HwfX, HX, size_of_2. by apply flat_index_lt.
Qed.

(** [x_ext[0:n_obs] = x] on the freshly zeroed array. *)
Lemma first_block :
  ∃ Y, setitem2 (length σ) (Slice (Some 0) (Some (Z.of_nat n))) full x full full
         (σ ++ [{| shape := [(n * (r + 1))%nat; m];
                   data := replicate (n * (r + 1) * m) 0%float |}]) =
       (Ok tt, σ ++ [Y]) ∧ ext_inv X n m r 0 Y.
Proof using Hx HX HwfX.
  eexists. split.
  - eapply (setitem2_last _ _ X _ _ _ _ _ _ _ n m 0 n 0 m 0 0); eauto.
    + assert (n ≤ n * (r + 1))%nat by nia. slice_arith.
    + slice_arith.
    + slice_arith.
    + slice_arith.
  - split; [done|]. split.
    { simpl. by rewrite length_blit, length_replicate. }
    intros b c j Hb Hc Hj. simpl.
    erewrite lookup_blit; [|done|].
    2:{ apply lookup_replicate_2. nia. }
    f_equal. case_bool_decide as Hw.
    + assert (b = 0%nat) as -> by nia. simpl.
      unfold delayed. simpl.
      by rewrite !Nat.sub_0_r.
    + destruct b as [|b]; [exfalso; apply Hw; lia|]. done.
Qed.

(** One iteration of the loop: block [i + 1] receives the signal delayed
    by [i + 1] samples. *)
Lemma delay_block (i : nat) (Y : ndarray) :
  (i < r)%nat -> ext_inv X n m r i Y ->
  ∃ Y', setitem2 (length σ)
          (Slice (Some (Z.of_nat n * (Z.of_nat i + 1))) (Some (Z.of_nat n * (Z.of_nat i + 2))))
          (Slice (Some (Z.of_nat i + 1)) None)
          x full (Slice None (Some (- (Z.of_nat i + 1))))
          (σ ++ [Y]) = (Ok tt, σ ++ [Y']) ∧ ext_inv X n m r (S i) Y'.
Proof using Hx HX HwfX.
  intros Hi (HY & Hlen & Hent). eexists. split.
  - eapply (setitem2_last _ _ X _ _ _ _ _ _ _ n m
              (n * (i + 1)) n (Nat.min (i + 1) m) (m - (i + 1)) 0 0); eauto.
    + assert (n * (i + 1) + n ≤ n * (r + 1))%nat by nia.
      assert (Z.of_nat n * (Z.of_nat i + 1) = Z.of_nat (n * (i + 1))) as -> by nia.
      assert (Z.of_nat n * (Z.of_nat i + 2) = Z.of_nat (n * (i + 1) + n)) as -> by nia.
      slice_arith.
    + slice_arith.
    + slice_arith.
    + slice_arith.
  - split; [done|]. split.
    { simpl. by rewrite length_blit. }
    intros b c j Hb Hc Hj. simpl.
    erewrite lookup_blit; [|done|by apply Hent].
    f_equal. case_bool_decide as Hw.
    + assert (b = S i) as -> by nia.
      rewrite Nat.leb_refl.
      destruct (Nat.leb_spec (S i) i); [lia|].
      unfold delayed. destruct (Nat.ltb_spec j (S i)); [lia|].
      destruct (source_entry c (j - S i)) as [v Hv]; [done|lia|].
      replace ((0 + (S i * n + c - n * (i + 1))) * m + (0 + (j - Nat.min (i + 1) m)))%nat
        with (c * m + (j - S i))%nat by nia.
      done.
    + destruct (Nat.leb_spec b i) as [Hbi|Hbi].
      * destruct (Nat.leb_spec b (S i)); [done|lia].
      * destruct (Nat.leb_spec b (S i)) as [Hbs|Hbs]; [|done].
        assert (b = S i) as -> by lia.
        unfold delayed. destruct (Nat.ltb_spec j (S i)) as [|Hji]; [done|].
        exfalso. apply Hw. nia.
Qed.

(** The loop over [range(r)], started after [k] iterations. *)
Lemma delay_loop (cnt k : nat) (Y : ndarray) :
  (k + cnt = r)%nat -> ext_inv X n m r k Y ->
  ∃ Y', for_each (Z.of_nat <$> seq k cnt) (fun i =>
          setitem2 (length σ)
            (Slice (Some (Z.of_nat n * (i + 1))) (Some (Z.of_nat n * (i + 2))))
            (Slice (Some (i + 1)) None)
            x full (Slice None (Some (- (i + 1)))))
          (σ ++ [Y]) = (Ok tt, σ ++ [Y']) ∧ ext_inv X n m r r Y'.
Proof using Hx HX HwfX.
  revert k Y. induction cnt as [|cnt IH]; intros k Y Hk Hinv.
  - exists Y. split; [done|]. assert (r = k) as -> by lia. done.
  - destruct (delay_block k Y) as (Y1 & Hrun & Hinv1); [lia|done|].
    destruct (IH (S k) Y1) as (Y' & Hrun' & Hinv'); [lia|done|].
    exists Y'. split; [|done].
    simpl. by rewrite (bind_ok _ _ _ tt (σ ++ [Y1])).
Qed.
End loop.

(** [extend_signal] on a two-dimensional input with [r >= 0]: it allocates
    one array, the extended signal, and fills every block. *)
Lemma extend_signal_run (σ : store) (x : loc) (X : ndarray) (n m R : nat) :
  σ !! x = Some X -> shape X = [n; m] -> wf X ->
  ∃ Y, extend_signal x (Z.of_nat R) σ = (Ok (length σ), σ ++ [Y]) ∧
       ext_inv X n m R R Y.
Proof.
  intros Hx HX Hwf.
  destruct (first_block σ x X n m R Hx HX Hwf) as (Y0 & Hrun0 & Hinv0).
  destruct (delay_loop σ x X n m R Hx HX Hwf R 0 Y0) as (Y & Hrun & Hinv); [lia|done|].
  exists Y. split; [|done].
  unfold extend_signal, np_shape.
  rewrite (bind_ok _ _ _ [n; m] σ).
  2:{ by rewrite (bind_ok _ _ _ X σ), HX by (by apply load_ok). }
  cbn [unpack2]. rewrite (bind_ok _ _ _ (Z.of_nat n, Z.of_nat m) σ) by done.
  replace (Z.of_nat n * (Z.of_nat R + 1)) with (Z.of_nat (n * (R + 1))) by lia.
  rewrite (bind_ok _ _ _ _ _ (np_zeros_2 _ _ _)).
  rewrite (bind_ok _ _ _ _ _ Hrun0).
  rewrite (bind_ok _ _ _ tt (σ ++ [Y])); [done|].
  destruct (Z.eqb_spec (Z.of_nat R) 0) as [HR|HR]; simpl.
  - assert (R = 0)%nat as -> by lia. simpl in Hrun. by injection Hrun as ->.
  - unfold py_range. by rewrite Nat2Z.id.
Qed.

Lemma ext_inv_get2 (X Y : ndarray) (n m r k b c j : nat) :
  ext_inv X n m r k Y -> (b ≤ r)%nat -> (c < n)%nat -> (j < m)%nat ->
  get2 Y (b * n + c) j = Some (if (b <=? k)%nat then delayed X m b c j else 0%float).
Proof.
  intros (HY & _ & Hent) Hb Hc Hj. unfold get2. rewrite HY.
  rewrite bool_decide_eq_true_2 by nia. by apply Hent.
Qed.

Lemma get2_delayed (X : ndarray) (n m c j : nat) :
  shape X = [n; m] -> wf X -> (c < n)%nat -> (j < m)%nat ->
  get2 X c j = Some (default 0%float (data X !! (c * m + j)%nat)).
Proof.
  intros HX Hwf Hc Hj. unfold get2. rewrite HX.
  rewrite bool_decide_eq_true_2 by lia.
  by destruct (source_entry X n m HX Hwf c j Hc Hj) as [v ->].
Qed.

Lemma ext_inv_wf (X Y : ndarray) (n m r k : nat) : ext_inv X n m r k Y -> wf Y.
Proof. intros (HY & Hlen & _). unfold wf. by rewrite HY, size_of_2. Qed.

(** ** Frame rules *)

Lemma keeps_ret {T} σ0 (v : T) (Q : T -> Prop) : Q v -> keeps σ0 (ret v) Q.
Proof. intros HQ σ Hσ. split; [done|]. simpl. by intros ? [= <-]. Qed.

Lemma keeps_raise {T} σ0 (e : exn) (Q : T -> Prop) : keeps σ0 (raise e) Q.
Proof. intros σ Hσ. split; [done|]. simpl. by intros ? [=]. Qed.

Lemma keeps_bind {A B} σ0 (c : M A) (k : A -> M B) (P : A -> Prop) (Q : B -> Prop) :
  keeps σ0 c P -> (∀ a, P a -> keeps σ0 (k a) Q) -> keeps σ0 (bind c k) Q.
Proof.
  intros Hc Hk σ Hσ. destruct (Hc σ Hσ) as [Hpre HP].
  unfold bind. destruct (c σ) as [[a|e] σ1]; simpl in *.
  - by apply Hk; [apply HP|].
  - split; [done|]. by intros ? [=].
Qed.

Lemma keeps_load σ0 (x : loc) : keeps σ0 (load x) (fun _ => True).
Proof.
  intros σ Hσ. unfold load. by destruct (σ !! x).
Qed.

Lemma keeps_alloc σ0 (a : ndarray) : keeps σ0 (alloc a) (fresh_for σ0).
Proof.
  intros σ Hσ. simpl. split.
  - by apply prefix_app_r.
  - intros v [= <-]. by apply prefix_length.
Qed.

Lemma keeps_new σ0 (r : outcome ndarray) : keeps σ0 (new r) (fresh_for σ0).
Proof. destruct r; [apply keeps_alloc|apply keeps_raise]. Qed.

(** A slice assignment into an array allocated after [σ0] keeps [σ0]. *)
Lemma keeps_setitem2 σ0 (tgt : loc) rs cs (src : loc) srs scs :
  fresh_for σ0 tgt -> keeps σ0 (setitem2 tgt rs cs src srs scs) (fun _ => True).
Proof.
  intros Hfresh. unfold setitem2.
  eapply keeps_bind; [apply keeps_load|]. intros t _.
  eapply keeps_bind; [apply keeps_load|]. intros s _.
  destruct (shape t) as [|tr [|tc [|]]]; try apply keeps_raise.
  destruct (shape s) as [|sr [|sc [|]]]; try apply keeps_raise.
  destruct (slice_bounds rs tr), (slice_bounds cs tc),
    (slice_bounds srs sr), (slice_bounds scs sc).
  destruct (_ && _); [|apply keeps_raise].
  intros σ [k ->]. simpl. split; [|done].
  unfold fresh_for in *.
  rewrite insert_app_r_alt by done. by eexists.
Qed.

Lemma keeps_for_each {A} σ0 (l : list A) (body : A -> M unit) :
  (∀ a, keeps σ0 (body a) (fun _ => True)) ->
  keeps σ0 (for_each l body) (fun _ => True).
Proof.
  intros Hbody. induction l as [|a l IH]; simpl.
  - by apply keeps_ret.
  - eapply keeps_bind; [apply Hbody|]. by intros _ _.
Qed.

(** [extend_signal] writes only into the array it allocates, and returns it. *)
Lemma keeps_extend_signal σ0 (x : loc) (r : Z) :
  keeps σ0 (extend_signal x r) (fresh_for σ0).
Proof.
  unfold extend_signal, np_shape.
  eapply keeps_bind with (P := fun _ => True).
  { eapply keeps_bind; [apply keeps_load|]. intros a _. by apply keeps_ret. }
  intros sh _.
  eapply keeps_bind with (P := fun _ => True).
  { unfold unpack2. destruct sh as [|? [|? [|]]];
      first [by apply keeps_raise | by apply keeps_ret]. }
  intros [n_obs n_samples] _.
  eapply keeps_bind.
  { unfold np_zeros. destruct (forallb _ _); [apply keeps_alloc|apply keeps_raise]. }
  intros x_ext Hfresh.
  eapply keeps_bind; [by apply keeps_setitem2|]. intros _ _.
  eapply keeps_bind with (P := fun _ => True).
  { destruct (negb _); [|by apply keeps_ret].
    apply keeps_for_each. intros i. by apply keeps_setitem2. }
  intros _ _. by apply keeps_ret.
Qed.

Section whiten_frame.
Variable mean_k : list float -> float.
Variable dot_k : list float -> list float -> float.
Variable pow_k : float -> float -> float.
Variable eigh_k : nat -> list float -> option (list float * list float).

Lemma keeps_unary σ0 (f : ndarray -> outcome ndarray) (x : loc) :
  keeps σ0 (let* a := load x in new (f a)) (fresh_for σ0).
Proof.
  eapply keeps_bind; [apply keeps_load|]. intros a _. apply keeps_new.
Qed.

Lemma keeps_binary σ0 (f : ndarray -> ndarray -> outcome ndarray) (x y : loc) :
  keeps σ0 (let* a := load x in let* b := load y in new (f a b)) (fresh_for σ0).
Proof.
  eapply keeps_bind; [apply keeps_load|]. intros a _.
  eapply keeps_bind; [apply keeps_load|]. intros b _. apply keeps_new.
Qed.

Lemma keeps_eigh σ0 (x : loc) :
  keeps σ0 (np_linalg_eigh eigh_k x) (fun p => fresh_for σ0 p.1 ∧ fresh_for σ0 p.2).
Proof.
  unfold np_linalg_eigh.
  eapply keeps_bind; [apply keeps_load|]. intros a _.
  destruct (shape a) as [|n [|n' [|]]]; try apply keeps_raise.
  destruct (n =? n')%nat; [|apply keeps_raise].
  destruct (eigh_k n (data a)) as [[w v]|]; [|apply keeps_raise].
  eapply keeps_bind; [apply keeps_alloc|]. intros lw Hw.
  eapply keeps_bind; [apply keeps_alloc|]. intros lv Hv.
  by apply keeps_ret.
Qed.

(** [whiten_signal] only allocates: every array it touches besides reading
    is one it has created. *)
Lemma keeps_whiten_signal σ0 (x : loc) :
  keeps σ0 (whiten_signal mean_k dot_k pow_k eigh_k x)
        (fun p => fresh_for σ0 p.1 ∧ fresh_for σ0 p.2).
Proof.
  unfold whiten_signal.
  eapply keeps_bind; [apply keeps_unary|]. intros x_mean _.
  eapply keeps_bind; [apply keeps_binary|]. intros x_center _.
  eapply keeps_bind; [apply keeps_unary|]. intros cov_mtx _.
  eapply keeps_bind; [apply keeps_eigh|]. intros [eig_vals eig_vecs] _.
  eapply keeps_bind; [apply keeps_unary|]. intros shifted _.
  eapply keeps_bind; [apply keeps_unary|]. intros root _.
  eapply keeps_bind; [apply keeps_unary|]. intros inv_root _.
  eapply keeps_bind; [apply keeps_unary|]. intros d _.
  eapply keeps_bind; [apply keeps_binary|]. intros vd _.
  eapply keeps_bind; [apply keeps_unary|]. intros eig_vecs_T _.
  eapply keeps_bind; [apply keeps_binary|]. intros white_mtx Hw.
  eapply keeps_bind; [apply keeps_binary|]. intros x_white Hxw.
  by apply keeps_ret.
Qed.
End whiten_frame.

(** ** [extend_signal] outside its contract *)

(** The empty array of [m] columns. *)
Lemma np_zeros_empty (m : nat) (σ : store) :
  np_zeros [0; Z.of_nat m] σ =
  (Ok (length σ), σ ++ [{| shape := [0%nat; m]; data := [] |}]).
Proof. apply (np_zeros_2 0 m). Qed.

(** [x_ext[0:n_obs] = x] when [x_ext] has no rows: the assignment goes
    through when [x] has no more than one row, and fails to broadcast
    otherwise. *)
Lemma first_block_empty (σ : store) (x : loc) (X : ndarray) (n m : nat) :
  σ !! x = Some X -> shape X = [n; m] ->
  setitem2 (length σ) (Slice (Some 0) (Some (Z.of_nat n))) full x full full
    (σ ++ [{| shape := [0%nat; m]; data := [] |}]) =
  (if bool_decide (n ≤ 1)%nat then Ok tt else Raise ValueError,
   σ ++ [{| shape := [0%nat; m]; data := [] |}]).
Proof.
  intros Hx HX. unfold setitem2.
  rewrite (bind_ok _ _ _ _ _ (load_ok _ _ _ (store_snoc_new σ _))).
  rewrite (bind_ok _ _ _ X (σ ++ [_])) by (by apply load_ok, store_snoc_old).
  rewrite HX. cbn [shape].
  replace (slice_bounds (Slice (Some 0) (Some (Z.of_nat n))) 0) with (0%nat, 0%nat)
    by (symmetry; slice_arith).
  replace (slice_bounds full m) with (0%nat, m) by (symmetry; slice_arith).
  replace (slice_bounds full n) with (0%nat, n) by (symmetry; slice_arith).
  unfold broadcasts. rewrite (Nat.eqb_refl m), orb_true_l, andb_true_r.
  case_bool_decide as Hn.
  - assert (n = 0 ∨ n = 1)%nat as [-> | ->] by lia; simpl; by rewrite store_snoc_insert.
  - destruct (Nat.eqb_spec n 0); [lia|]. destruct (Nat.eqb_spec n 1); [lia|]. done.
Qed.

Lemma extend_signal_not_2d (σ : store) (x : loc) (X : ndarray) (r : Z) :
  σ !! x = Some X -> length (shape X) ≠ 2%nat ->
  extend_signal x r σ = (Raise ValueError, σ).
Proof.
  intros Hx Hsh. unfold extend_signal, np_shape.
  rewrite (bind_ok _ _ _ (shape X) σ).
  2:{ by rewrite (bind_ok _ _ _ X σ) by (by apply load_ok). }
  destruct (shape X) as [|? [|? [|]]]; done.
Qed.

Lemma extend_signal_negative (σ : store) (x : loc) (X : ndarray) (n m : nat) (r : Z) :
  σ !! x = Some X -> shape X = [n; m] -> r < 0 ->
  extend_signal x r σ =
  if bool_decide (n = 0%nat ∨ r = -1) then
    (if bool_decide (n ≤ 1)%nat then Ok (length σ) else Raise ValueError,
     σ ++ [{| shape := [0%nat; m]; data := [] |}])
  else (Raise ValueError, σ).
Proof.
  intros Hx HX Hr. unfold extend_signal, np_shape.
  rewrite (bind_ok _ _ _ [n; m] σ).
  2:{ by rewrite (bind_ok _ _ _ X σ), HX by (by apply load_ok). }
  cbn [unpack2]. rewrite (bind_ok _ _ _ (Z.of_nat n, Z.of_nat m) σ) by done.
  case_bool_decide as Hcase.
  - replace (Z.of_nat n * (r + 1)) with 0 by lia.
    rewrite (bind_ok _ _ _ _ _ (np_zeros_empty m σ)).
    pose proof (first_block_empty σ x X n m Hx HX) as Hfirst.
    case_bool_decide.
    + rewrite (bind_ok _ _ _ _ _ Hfirst).
      destruct (Z.eqb_spec r 0); [lia|]. simpl.
      unfold py_range. by replace (Z.to_nat r) with 0%nat by lia.
    + by rewrite (bind_raise _ _ _ _ _ Hfirst).
  - erewrite bind_raise; [done|].
    unfold np_zeros. simpl.
    destruct (Z.leb_spec 0 (Z.of_nat n * (r + 1))); [nia|done].
Qed.

(** ** Running [whiten_signal] *)

Lemma run_unary (f : ndarray -> outcome ndarray) (x : loc) (τ : store) (a b : ndarray) :
  τ !! x = Some a -> f a = Ok b ->
  (let* a := load x in new (f a)) τ = (Ok (length τ), τ ++ [b]).
Proof.
  intros Hx Hf. by rewrite (bind_ok _ _ _ _ _ (load_ok _ _ _ Hx)), Hf.
Qed.

Lemma run_binary (f : ndarray -> ndarray -> outcome ndarray) (x y : loc) (τ : store)
    (a b c : ndarray) :
  τ !! x = Some a -> τ !! y = Some b -> f a b = Ok c ->
  (let* a := load x in let* b := load y in new (f a b)) τ = (Ok (length τ), τ ++ [c]).
Proof.
  intros Hx Hy Hf.
  by rewrite (bind_ok _ _ _ _ _ (load_ok _ _ _ Hx)), (bind_ok _ _ _ _ _ (load_ok _ _ _ Hy)), Hf.
Qed.

(** Look an array up in a store grown by allocations. *)
Ltac lookup_store :=
  first [ eassumption | apply store_snoc_new | apply store_snoc_old; lookup_store ].

(** Run the NumPy call at the head of a computation, given its result. *)
Ltac run_call H :=
  match goal with
  | |- bind (bind (load ?x) (fun a => bind (load ?y) (fun b => new (@?f a b)))) _ ?τ = _ =>
      rewrite (bind_ok _ _ τ _ _
                 (run_binary f x y τ _ _ _ ltac:(lookup_store) ltac:(lookup_store) H))
  | |- bind (bind (load ?x) (fun a => new (@?f a))) _ ?τ = _ =>
      rewrite (bind_ok _ _ τ _ _ (run_unary f x τ _ _ ltac:(lookup_store) H))
  end.

Lemma broadcast_rev_column (n m : nat) : broadcast_rev [m; n] [1%nat; n] = Some [m; n].
Proof.
  simpl. rewrite Nat.eqb_refl.
  destruct (Nat.eqb_spec m 1) as [->|]; [done|].
  by destruct (Nat.eqb_spec m 1).
Qed.

Section shapes.
Variable mean_k : list float -> float.
Variable dot_k : list float -> list float -> float.

Lemma mean_axis1_keepdims_2d (a : ndarray) (n m : nat) :
  shape a = [n; m] ->
  ∃ b, mean_axis1_keepdims mean_k a = Ok b ∧ shape b = [n; 1%nat].
Proof. intros Ha. unfold mean_axis1_keepdims. rewrite Ha. by eexists. Qed.

Lemma subtract_column (a b : ndarray) (n m : nat) :
  shape a = [n; m] -> shape b = [n; 1%nat] ->
  ∃ c, subtract a b = Ok c ∧ shape c = [n; m].
Proof.
  intros Ha Hb. unfold subtract. rewrite Ha, Hb.
  change (rev [n; m]) with [m; n]. change (rev [n; 1%nat]) with [1%nat; n].
  rewrite broadcast_rev_column. by eexists.
Qed.

Lemma cov_2d (a : ndarray) (n m : nat) :
  shape a = [n; m] -> n ≠ 0%nat ->
  ∃ c, cov mean_k dot_k a = Ok c ∧ shape c = squeeze [n; n].
Proof.
  intros Ha Hn. unfold cov. rewrite Ha.
  destruct (Nat.eqb_spec n 0); [done|]. by eexists.
Qed.

Lemma matmul_2d (a b : ndarray) (n k m : nat) :
  shape a = [n; k] -> shape b = [k; m] ->
  ∃ c, matmul dot_k a b = Ok c ∧ shape c = [n; m].
Proof.
  intros Ha Hb. unfold matmul. rewrite Ha, Hb, Nat.eqb_refl. by eexists.
Qed.

Lemma diag_1d (a : ndarray) (n : nat) :
  shape a = [n] -> ∃ c, diag a = Ok c ∧ shape c = [n; n].
Proof. intros Ha. unfold diag. rewrite Ha. by eexists. Qed.

Lemma transpose_2d (a : ndarray) (n m : nat) :
  shape a = [n; m] -> ∃ c, transpose a = Ok c ∧ shape c = [m; n].
Proof. intros Ha. unfold transpose. rewrite Ha. by eexists. Qed.
End shapes.

Lemma squeeze_square (n : nat) : (2 ≤ n)%nat -> squeeze [n; n] = [n; n].
Proof.
  intros Hn. unfold squeeze.
  rewrite !filter_cons_True by lia. done.
Qed.

Section whiten_run.
Variable mean_k : list float -> float.
Variable dot_k : list float -> list float -> float.
Variable pow_k : float -> float -> float.
Variable eigh_k : nat -> list float -> option (list float * list float).

(** The steps before the eigensolver, on a matrix with at least one row. *)
Lemma whiten_signal_covariance (σ : store) (x : loc) (X : ndarray) (n m : nat) :
  σ !! x = Some X -> shape X = [n; m] -> n ≠ 0%nat ->
  ∃ Xm Xc C,
    mean_axis1_keepdims mean_k X = Ok Xm ∧ shape Xm = [n; 1%nat] ∧
    subtract X Xm = Ok Xc ∧ shape Xc = [n; m] ∧
    cov mean_k dot_k Xc = Ok C ∧ shape C = squeeze [n; n] ∧
    whiten_signal mean_k dot_k pow_k eigh_k x σ =
    (let* (eig_vals, eig_vecs) := np_linalg_eigh eigh_k (length σ + 2)%nat in
     let eps := 1e-10%float in
     let* shifted := np_map (fun v => v + eps)%float eig_vals in
     let* root := np_map (fun v => pow_k v 0.5%float) shifted in
     let* inv_root := np_map (fun v => 1 / v)%float root in
     let* d := np_diag inv_root in
     let* vd := np_matmul dot_k eig_vecs d in
     let* eig_vecs_T := np_transpose eig_vecs in
     let* white_mtx := np_matmul dot_k vd eig_vecs_T in
     let* x_white := np_matmul dot_k white_mtx (length σ + 1)%nat in
     ret (x_white, white_mtx)) (σ ++ [Xm; Xc; C]).
Proof.
  intros Hx HX Hn.
  destruct (mean_axis1_keepdims_2d mean_k X n m HX) as (Xm & HXm & HsXm).
  destruct (subtract_column X Xm n m HX HsXm) as (Xc & HXc & HsXc).
  destruct (cov_2d mean_k dot_k Xc n m HsXc Hn) as (C & HC & HsC).
  exists Xm, Xc, C. repeat (split; [done|]).
  unfold whiten_signal at 1.
  unfold np_mean_axis1_keepdims, np_subtract, np_cov.
  rewrite (bind_ok _ _ _ _ _ (run_unary _ x σ X Xm Hx HXm)).
  rewrite (bind_ok _ _ _ _ _ (run_binary subtract x (length σ) (σ ++ [Xm]) X Xm Xc
             ltac:(lookup_store) ltac:(lookup_store) HXc)).
  rewrite (bind_ok _ _ _ _ _ (run_unary _ (length (σ ++ [Xm])) ((σ ++ [Xm]) ++ [Xc]) Xc C
             ltac:(lookup_store) HC)).
  rewrite !length_app. simpl length.
  replace (length σ + 1 + 1)%nat with (length σ + 2)%nat by lia.
  by rewrite <- !app_assoc.
Qed.

Lemma np_linalg_eigh_square (τ : store) (l : loc) (C : ndarray) (n : nat) :
  τ !! l = Some C -> shape C = [n; n] ->
  np_linalg_eigh eigh_k l τ =
  match eigh_k n (data C) with
  | Some (w, v) =>
      (Ok (length τ, S (length τ)),
       τ ++ [{| shape := [n]; data := w |}; {| shape := [n; n]; data := v |}])
  | None => (Raise LinAlgError, τ)
  end.
Proof.
  intros Hl HC. unfold np_linalg_eigh.
  rewrite (bind_ok _ _ _ _ _ (load_ok _ _ _ Hl)), HC, Nat.eqb_refl.
  destruct (eigh_k n (data C)) as [[w v]|]; [|done].
  unfold bind, alloc, ret. rewrite length_app, <- app_assoc. simpl.
  by rewrite Nat.add_1_r.
Qed.

Lemma np_linalg_eigh_scalar (τ : store) (l : loc) (C : ndarray) :
  τ !! l = Some C -> shape C = [] ->
  np_linalg_eigh eigh_k l τ = (Raise LinAlgError, τ).
Proof.
  intros Hl HC. unfold np_linalg_eigh.
  by rewrite (bind_ok _ _ _ _ _ (load_ok _ _ _ Hl)), HC.
Qed.

(** [whiten_signal] on a matrix with at least two rows: it fails exactly
    when the eigensolver does, and returns what it has computed otherwise. *)
Lemma whiten_signal_run (σ : store) (x : loc) (X : ndarray) (n m : nat) :
  σ !! x = Some X -> shape X = [n; m] -> (2 ≤ n)%nat ->
  ∃ Xm Xc C,
    mean_axis1_keepdims mean_k X = Ok Xm ∧
    subtract X Xm = Ok Xc ∧ shape Xc = [n; m] ∧
    cov mean_k dot_k Xc = Ok C ∧ shape C = [n; n] ∧
    match eigh_k n (data C) with
    | None =>
        whiten_signal mean_k dot_k pow_k eigh_k x σ =
        (Raise LinAlgError, σ ++ [Xm; Xc; C])
    | Some (w, v) =>
        let V := {| shape := [n; n]; data := v |} in
        ∃ D VD VT W XW,
          diag (inv_root_of pow_k n w) = Ok D ∧
          matmul dot_k V D = Ok VD ∧
          transpose V = Ok VT ∧
          matmul dot_k VD VT = Ok W ∧ shape W = [n; n] ∧
          matmul dot_k W Xc = Ok XW ∧ shape XW = [n; m] ∧
          whiten_signal mean_k dot_k pow_k eigh_k x σ =
          (Ok (length σ + 12, length σ + 11)%nat,
           σ ++ [Xm; Xc; C; {| shape := [n]; data := w |}; V;
                 shifted_of n w; root_of pow_k n w; inv_root_of pow_k n w; D; VD; VT; W; XW])
    end.
Proof.
  intros Hx HX Hn.
  destruct (whiten_signal_covariance σ x X n m Hx HX ltac:(lia))
    as (Xm & Xc & C & HXm & HsXm & HXc & HsXc & HC & HsC & Hrun).
  rewrite squeeze_square in HsC by done.
  exists Xm, Xc, C. repeat (split; [done|]).
  rewrite Hrun. clear Hrun.
  set (τ := σ ++ [Xm; Xc; C]).
  assert (τ !! (length σ + 2)%nat = Some C) as HlC.
  { unfold τ. rewrite lookup_app_r by lia. by replace (length σ + 2 - length σ)%nat with 2%nat by lia. }
  assert (τ !! (length σ + 1)%nat = Some Xc) as HlXc.
  { unfold τ. rewrite lookup_app_r by lia. by replace (length σ + 1 - length σ)%nat with 1%nat by lia. }
  assert (length τ = length σ + 3)%nat as Hτ by (unfold τ; rewrite length_app; simpl; lia).
  pose proof (np_linalg_eigh_square τ _ C n HlC HsC) as Heigh.
  destruct (eigh_k n (data C)) as [[w v]|].
  2:{ by rewrite (bind_raise _ _ _ _ _ Heigh). }
  intros V.
  destruct (diag_1d (inv_root_of pow_k n w) n eq_refl) as (D & HD & HsD).
  destruct (matmul_2d dot_k V D n n n eq_refl HsD) as (VD & HVD & HsVD).
  destruct (transpose_2d V n n eq_refl) as (VT & HVT & HsVT).
  destruct (matmul_2d dot_k VD VT n n n HsVD HsVT) as (W & HW & HsW).
  destruct (matmul_2d dot_k W Xc n n m HsW HsXc) as (XW & HXW & HsXW).
  exists D, VD, VT, W, XW. repeat (split; [done|]).
  rewrite (bind_ok _ _ _ _ _ Heigh). cbv zeta.
  set (Ev := {| shape := [n]; data := w |}). fold V.
  assert ((τ ++ [Ev; V]) = (τ ++ [Ev]) ++ [V]) as -> by (by rewrite <- app_assoc).
  assert ((τ ++ [Ev]) !! length τ = Some Ev) as HlEv by lookup_store.
  assert (((τ ++ [Ev]) ++ [V]) !! S (length τ) = Some V) as HlV.
  { replace (S (length τ)) with (length (τ ++ [Ev])) by (rewrite length_app; simpl; lia).
    lookup_store. }
  assert (((τ ++ [Ev]) ++ [V]) !! (length σ + 1)%nat = Some Xc) as HlXc' by lookup_store.
  unfold np_map, np_diag, np_matmul, np_transpose.
  run_call (eq_refl : map_array _ Ev = Ok (shifted_of n w)).
  run_call (eq_refl : map_array _ (shifted_of n w) = Ok (root_of pow_k n w)).
  run_call (eq_refl : map_array _ (root_of pow_k n w) = Ok (inv_root_of pow_k n w)).
  run_call HD. run_call HVD. run_call HVT. run_call HW. run_call HXW.
  unfold ret. rewrite !length_app, Hτ. simpl length.
  unfold τ. rewrite <- !app_assoc. simpl.
  do 3 f_equal; lia.
Qed.

End whiten_run.

(** ** Binding the arguments of [whiten_signal] *)

Lemma assoc_only_x {V} (k : string) (d : option V) :
  is_Some (assoc k [("x"%string, d)]) -> k = "x"%string.
Proof.
  unfold assoc. simpl. destruct (String.eqb_spec k "x"); [done|].
  simpl. by intros [? [=]].
Qed.

Lemma assoc_eps_absent (kwargs : list (string * pyval)) :
  forallb (fun kw => bool_decide (is_Some (assoc kw.1 [("x"%string, @None pyval)]))) kwargs = true ->
  assoc "eps" kwargs = None.
Proof.
  induction kwargs as [|[k v] kwargs IH]; [done|].
  simpl. intros [Hk Hrest]%andb_prop.
  apply bool_decide_eq_true_1, assoc_only_x in Hk. subst k.
  unfold assoc in *. simpl. by apply IH.
Qed.

Lemma bind_args_whiten_signal (args : list pyval) (kwargs env : list (string * pyval)) :
  bind_args whiten_signal_params args kwargs = Ok env ->
  assoc "eps" kwargs = None ∧ (length args ≤ 1)%nat ∧ ∃ v, env = [("x"%string, v)].
Proof.
  unfold bind_args, whiten_signal_params.
  destruct args as [|a [|b args]]; simpl.
  - destruct (forallb _ kwargs) eqn:Hkw; [|done].
    destruct (assoc "x" kwargs) as [v|]; [|done].
    simpl. intros [= <-]. split; [by apply assoc_eps_absent|]. split; [lia|by eexists].
  - destruct kwargs as [|[k v] kwargs]; simpl.
    + intros [= <-]. split; [done|]. split; [lia|by eexists].
    + done.
  - done.
Qed.

Lemma inv_root_of_eq (pow_k : float -> float -> float) (n : nat) (w : list float) :
  inv_root_of pow_k n w =
  {| shape := [n]; data := (fun e => 1 / pow_k (e + 1e-10) 0.5)%float <$> w |}.
Proof.
  unfold inv_root_of, root_of, shifted_of. simpl. f_equal.
  rewrite <- !list_fmap_compose. done.
Qed.

(** ** [extend_signal] on a machine *)

Lemma checked_nbytes_2 (a b : Z) :
  0 ≤ a -> 0 ≤ b -> Machine.checked_nbytes [a; b] = 8 * Z.max 1 a * Z.max 1 b.
Proof.
  intros Ha Hb. unfold Machine.checked_nbytes, Machine.itemsize. simpl.
  destruct (Z.eqb_spec a 0) as [->|], (Z.eqb_spec b 0) as [->|];
    rewrite ?(Z.max_r 1 a), ?(Z.max_r 1 b) by lia; change (Z.max 1 0) with 1; lia.
Qed.

Lemma nbytes_2 (a b : Z) : Machine.nbytes [a; b] = 8 * a * b.
Proof. unfold Machine.nbytes, Machine.itemsize. simpl. lia. Qed.

Lemma extents_fit (a b : Z) :
  0 ≤ a -> 0 ≤ b -> 8 * Z.max 1 a * Z.max 1 b ≤ Machine.intp_max ->
  forallb (fun d => d <=? Machine.intp_max) [a; b] = true.
Proof.
  intros Ha Hb Hfit. simpl.
  destruct (Z.leb_spec a Machine.intp_max); [|nia].
  destruct (Z.leb_spec b Machine.intp_max); [done|nia].
Qed.

(** A result beyond the index range is refused. *)
Lemma np_zeros_too_big (can_alloc : Z -> bool) (a b : Z) (σ : store) :
  0 ≤ a -> 0 ≤ b -> Machine.intp_max < 8 * Z.max 1 a * Z.max 1 b ->
  Machine.np_zeros can_alloc [a; b] σ = (Raise ValueError, σ).
Proof.
  intros Ha Hb Hbig. unfold Machine.np_zeros.
  destruct (forallb (fun d => d <=? Machine.intp_max) [a; b]); [|done].
  destruct (forallb (fun d => 0 <=? d) [a; b]); [|done].
  rewrite checked_nbytes_2 by done. simpl.
  by destruct (Z.ltb_spec Machine.intp_max (8 * Z.max 1 a * Z.max 1 b)); [|lia].
Qed.

(** A request that the allocator does not serve ends in [MemoryError]. *)
Lemma np_zeros_not_served (can_alloc : Z -> bool) (a b : Z) (σ : store) :
  0 ≤ a -> 0 ≤ b -> 8 * Z.max 1 a * Z.max 1 b ≤ Machine.intp_max ->
  can_alloc (8 * a * b) = false ->
  Machine.np_zeros can_alloc [a; b] σ = (Raise MemoryError, σ).
Proof.
  intros Ha Hb Hfit Hno. unfold Machine.np_zeros.
  rewrite extents_fit, checked_nbytes_2, nbytes_2, Hno by done. simpl.
  destruct (Z.leb_spec 0 a); [|lia]. destruct (Z.leb_spec 0 b); [|lia]. simpl.
  by destruct (Z.ltb_spec Machine.intp_max (8 * Z.max 1 a * Z.max 1 b)); [lia|].
Qed.

(** What the allocator serves is allocated as with unbounded memory. *)
Lemma np_zeros_served (can_alloc : Z -> bool) (a b : Z) :
  0 ≤ a -> 0 ≤ b -> 8 * Z.max 1 a * Z.max 1 b ≤ Machine.intp_max ->
  can_alloc (8 * a * b) = true ->
  Machine.np_zeros can_alloc [a; b] = np_zeros [a; b].
Proof.
  intros Ha Hb Hfit Hyes. unfold Machine.np_zeros, np_zeros.
  rewrite extents_fit, checked_nbytes_2, nbytes_2, Hyes by done. simpl.
  destruct (Z.leb_spec 0 a); [|lia]. destruct (Z.leb_spec 0 b); [|lia]. simpl.
  by destruct (Z.ltb_spec Machine.intp_max (8 * Z.max 1 a * Z.max 1 b)); [lia|].
Qed.

(** The call on a machine is the call with unbounded memory as soon as its
    one allocation is served, and ends where the allocation ends
    otherwise. *)
Lemma extend_signal_served (can_alloc : Z -> bool) (σ : store) (x : loc) (X : ndarray)
    (n m : nat) (r : Z) :
  σ !! x = Some X -> shape X = [n; m] -> 0 ≤ r ->
  8 * Z.max 1 (Z.of_nat n * (r + 1)) * Z.max 1 (Z.of_nat m) ≤ Machine.intp_max ->
  can_alloc (8 * (Z.of_nat n * (r + 1)) * Z.of_nat m) = true ->
  Machine.extend_signal can_alloc x r σ = extend_signal x r σ.
Proof.
  intros Hx HX Hr Hfit Hyes. unfold Machine.extend_signal, extend_signal, np_shape.
  rewrite !(bind_ok _ _ _ [n; m] σ)
    by (by rewrite (bind_ok _ _ _ X σ), HX by (by apply load_ok)).
  cbn [unpack2]. rewrite !(bind_ok _ _ _ (Z.of_nat n, Z.of_nat m) σ) by done.
  by rewrite np_zeros_served by (done || lia).
Qed.

Lemma extend_signal_not_allocated (can_alloc : Z -> bool) (σ : store) (x : loc)
    (X : ndarray) (n m : nat) (r : Z) (e : exn) :
  σ !! x = Some X -> shape X = [n; m] ->
  Machine.np_zeros can_alloc [Z.of_nat n * (r + 1); Z.of_nat m] σ = (Raise e, σ) ->
  Machine.extend_signal can_alloc x r σ = (Raise e, σ).
Proof.
  intros Hx HX Hraise. unfold Machine.extend_signal, np_shape.
  rewrite (bind_ok _ _ _ [n; m] σ)
    by (by rewrite (bind_ok _ _ _ X σ), HX by (by apply load_ok)).
  cbn [unpack2]. rewrite (bind_ok _ _ _ (Z.of_nat n, Z.of_nat m) σ) by done.
  by apply bind_raise.
Qed.

(** * The claims *)

(** C1. For a two-dimensional [X] of shape [(n, m)] and [r >= 0],
    [extend_signal(X, r)] returns a new array of shape [(n * (r + 1), m)]
    whose block 0 equals [X] and whose block [k], for [k] in [1..r], is zero
    in columns [0..k] and holds columns [0..m-k] of [X] in columns [k..m].
    On [X = [[1,2,3,4,5],[5,4,3,2,1]]] and [r = 1] the result is
    [[[1,2,3,4,5],[5,4,3,2,1],[0,1,2,3,4],[0,5,4,3,2]]]. *)
Theorem extend_signal_delay_embedding :
  (∀ (σ : store) (x : loc) (X : ndarray) (n m : nat) (r : Z),
      σ !! x = Some X -> shape X = [n; m] -> wf X -> 0 ≤ r ->
      ∃ Y, extend_signal x r σ = (Ok (length σ), σ ++ [Y]) ∧
        shape Y = [(n * (Z.to_nat r + 1))%nat; m] ∧ wf Y ∧
        (∀ c j, (c < n)%nat -> (j < m)%nat ->
           is_Some (get2 X c j) ∧ get2 Y c j = get2 X c j) ∧
        (∀ k c j, (1 ≤ k ≤ Z.to_nat r)%nat -> (c < n)%nat -> (j < m)%nat ->
           get2 Y (k * n + c) j =
           if (j <? k)%nat then Some 0%float else get2 X c (j - k)))
  ∧ extend_signal 0%nat 1 [scenario_A] = (Ok 1%nat, [scenario_A; scenario_A_ext]).
Proof.
  split; [|by vm_compute].
  intros σ x X n m r Hx HX Hwf Hr.
  destruct (extend_signal_run σ x X n m (Z.to_nat r) Hx HX Hwf) as (Y & Hrun & Hinv).
  rewrite Z2Nat.id in Hrun by done.
  exists Y. split; [done|]. split; [apply Hinv|]. split; [by eapply ext_inv_wf|]. split.
  - intros c j Hc Hj.
    pose proof (ext_inv_get2 X Y n m _ _ 0 c j Hinv) as Hget.
    rewrite Nat.mul_0_l, Nat.add_0_l in Hget.
    rewrite Hget, (get2_delayed X n m c j) by first [done|lia].
    split; [done|]. unfold delayed. simpl. by rewrite Nat.sub_0_r.
  - intros k c j Hk Hc Hj.
    rewrite (ext_inv_get2 X Y n m _ _ k c j Hinv) by first [done|lia].
    destruct (Nat.leb_spec k (Z.to_nat r)); [|lia].
    unfold delayed. destruct (Nat.ltb_spec j k); [done|].
    by rewrite (get2_delayed X n m c (j - k)) by first [done|lia].
Qed.

Lemma extend_signal_delay_embedding_witness :
  ∃ Y, extend_signal 0%nat 1 [scenario_A] = (Ok 1%nat, [scenario_A] ++ [Y]) ∧
    shape Y = [4%nat; 5%nat] ∧ wf Y ∧
    (∀ c j, (c < 2)%nat -> (j < 5)%nat ->
       is_Some (get2 scenario_A c j) ∧ get2 Y c j = get2 scenario_A c j) ∧
    (∀ k c j, (1 ≤ k ≤ 1)%nat -> (c < 2)%nat -> (j < 5)%nat ->
       get2 Y (k * 2 + c) j =
       if (j <? k)%nat then Some 0%float else get2 scenario_A c (j - k)).
Proof.
  apply (proj1 extend_signal_delay_embedding [scenario_A] 0%nat scenario_A 2%nat 5%nat 1).
  - reflexivity.
  - reflexivity.
  - reflexivity.
  - lia.
Defined.

(** C4, as the code has it.  [extend_signal] validates nothing itself.  An
    input that is not two-dimensional makes the unpacking of [x.shape] raise
    [ValueError] before anything is allocated.  A negative [r] is not
    refused: when [X] has no row, or [r = -1] and [X] has one row, the call
    returns an array with no rows; otherwise NumPy raises [ValueError], from
    [np.zeros] when [r <= -2], and from the first slice assignment, after the
    output was allocated, when [r = -1].  No exception is an
    [InvalidParameterError] or a [ShapeError]. *)
Theorem extend_signal_unvalidated (σ : store) (x : loc) (X : ndarray) (r : Z) :
  σ !! x = Some X ->
  (length (shape X) ≠ 2%nat -> extend_signal x r σ = (Raise ValueError, σ)) ∧
  (∀ n m, shape X = [n; m] -> r < 0 ->
     extend_signal x r σ =
     if bool_decide (n = 0%nat ∨ r = -1) then
       (if bool_decide (n ≤ 1)%nat then Ok (length σ) else Raise ValueError,
        σ ++ [{| shape := [0%nat; m]; data := [] |}])
     else (Raise ValueError, σ)) ∧
  (∀ e, (extend_signal x r σ).1 = Raise e ->
     exn_name e ≠ "InvalidParameterError"%string ∧ exn_name e ≠ "ShapeError"%string).
Proof.
  intros Hx. split; [|split].
  - by apply extend_signal_not_2d.
  - intros n m HX Hr. by apply (extend_signal_negative σ x X).
  - intros e _. by destruct e.
Qed.

Lemma extend_signal_unvalidated_witness :
  (length (shape one_by_three) ≠ 2%nat ->
     extend_signal 0%nat (-1) [one_by_three] = (Raise ValueError, [one_by_three])) ∧
  (∀ n m, shape one_by_three = [n; m] -> -1 < 0 ->
     extend_signal 0%nat (-1) [one_by_three] =
     if bool_decide (n = 0%nat ∨ -1 = -1) then
       (if bool_decide (n ≤ 1)%nat then Ok (length [one_by_three]) else Raise ValueError,
        [one_by_three] ++ [{| shape := [0%nat; m]; data := [] |}])
     else (Raise ValueError, [one_by_three])) ∧
  (∀ e, (extend_signal 0%nat (-1) [one_by_three]).1 = Raise e ->
     exn_name e ≠ "InvalidParameterError"%string ∧ exn_name e ≠ "ShapeError"%string).
Proof.
  apply (extend_signal_unvalidated [one_by_three] 0%nat one_by_three (-1)).
  reflexivity.
Defined.

(** C4 fails on the code: [extend_signal(X, -1)] on the one-channel signal
    [[[1, 2, 3]]] raises nothing and returns an array of shape [(0, 3)]; on
    the two-channel signal of scenario A it raises NumPy's [ValueError], once
    the output array has been allocated. *)
Lemma extend_signal_accepts_negative_r :
  extend_signal 0%nat (-1) [one_by_three] =
    (Ok 1%nat, [one_by_three; {| shape := [0%nat; 3%nat]; data := [] |}]) ∧
  extend_signal 0%nat (-1) [scenario_A] =
    (Raise ValueError, [scenario_A; {| shape := [0%nat; 5%nat]; data := [] |}]).
Proof. split; by vm_compute. Qed.

(** C5. [extend_signal(X, 0)] returns an array equal to [X]: same shape,
    same values.  The same holds when [r] is left to its default. *)
Theorem extend_signal_zero_identity (σ : store) (x : loc) (X : ndarray) (n m : nat) :
  σ !! x = Some X -> shape X = [n; m] -> wf X ->
  extend_signal x 0 σ = (Ok (length σ), σ ++ [X]) ∧
  call_extend_signal [VArray x] [] σ = (Ok (length σ), σ ++ [X]).
Proof.
  intros Hx HX Hwf.
  assert (extend_signal x 0 σ = (Ok (length σ), σ ++ [X])) as Hrun; [|by split].
  destruct (extend_signal_run σ x X n m 0 Hx HX Hwf) as (Y & Hrun & HY & Hlen & Hent).
  change (Z.of_nat 0) with 0 in Hrun. rewrite Hrun. do 3 f_equal.
  destruct X as [shX dX], Y as [shY dY]. simpl in *. subst shX shY.
  unfold wf in Hwf. cbn [shape data] in Hwf. rewrite size_of_2 in Hwf.
  f_equal; [f_equal; lia|].
  apply list_eq. intros i.
  destruct (decide (i < n * m)%nat) as [Hi|Hi].
  - assert (0 < m)%nat as Hm by nia.
    pose proof (Nat.div_mod_eq i m) as Hdiv.
    pose proof (Nat.mod_upper_bound i m ltac:(lia)) as Hmod.
    assert (i / m < n)%nat as Hc by (apply Nat.Div0.div_lt_upper_bound; lia).
    specialize (Hent 0%nat (i / m)%nat (i mod m)%nat ltac:(lia) Hc Hmod).
    replace ((0 * n + i / m) * m + i mod m)%nat with i in Hent by lia.
    rewrite Hent. unfold delayed. simpl. rewrite Nat.sub_0_r.
    replace (i / m * m + i mod m)%nat with i by lia.
    destruct (lookup_lt_is_Some_2 dX i) as [v ->]; [lia|done].
  - rewrite !lookup_ge_None_2; [done|lia|lia].
Qed.

Lemma extend_signal_zero_identity_witness :
  extend_signal 0%nat 0 [scenario_A] = (Ok 1%nat, [scenario_A] ++ [scenario_A]) ∧
  call_extend_signal [VArray 0%nat] [] [scenario_A] = (Ok 1%nat, [scenario_A] ++ [scenario_A]).
Proof.
  apply (extend_signal_zero_identity [scenario_A] 0%nat scenario_A 2%nat 5%nat);
    reflexivity.
Defined.

(** C6, as the code has it.  [whiten_signal] checks no value for finiteness
    and raises no [NumericalInstabilityError].  On a matrix with at least two
    channels it raises only when [np.linalg.eigh] does, with its
    [LinAlgError]; whenever the eigensolver returns, whatever the eigenvalues
    and eigenvectors are, [whiten_signal] returns the whitening matrix and
    the whitened signal it has computed from them. *)
Theorem whiten_signal_unchecked
    (mean_k : list float -> float) (dot_k : list float -> list float -> float)
    (pow_k : float -> float -> float)
    (eigh_k : nat -> list float -> option (list float * list float))
    (σ : store) (x : loc) (X : ndarray) (n m : nat) :
  σ !! x = Some X -> shape X = [n; m] -> (2 ≤ n)%nat ->
  (∀ e, (whiten_signal mean_k dot_k pow_k eigh_k x σ).1 = Raise e ->
     e = LinAlgError ∧ exn_name e ≠ "NumericalInstabilityError"%string) ∧
  ∃ Xm Xc C,
    mean_axis1_keepdims mean_k X = Ok Xm ∧ subtract X Xm = Ok Xc ∧
    cov mean_k dot_k Xc = Ok C ∧
    match eigh_k n (data C) with
    | None => (whiten_signal mean_k dot_k pow_k eigh_k x σ).1 = Raise LinAlgError
    | Some (w, v) =>
        ∃ x_white white_mtx W XW,
          (whiten_signal mean_k dot_k pow_k eigh_k x σ).1 = Ok (x_white, white_mtx) ∧
          (whiten_signal mean_k dot_k pow_k eigh_k x σ).2 !! white_mtx = Some W ∧
          (whiten_signal mean_k dot_k pow_k eigh_k x σ).2 !! x_white = Some XW ∧
          shape W = [n; n] ∧ matmul dot_k W Xc = Ok XW ∧ shape XW = [n; m]
    end.
Proof.
  intros Hx HX Hn.
  destruct (whiten_signal_run mean_k dot_k pow_k eigh_k σ x X n m Hx HX Hn)
    as (Xm & Xc & C & HXm & HXc & HsXc & HC & HsC & Hrun).
  cbv zeta in Hrun. split.
  - intros e He. destruct (eigh_k n (data C)) as [[w v]|].
    + destruct Hrun as (D & VD & VT & W & XW & _ & _ & _ & _ & _ & _ & _ & Hrun).
      by rewrite Hrun in He.
    + rewrite Hrun in He. by injection He as <-.
  - exists Xm, Xc, C. repeat (split; [done|]).
    destruct (eigh_k n (data C)) as [[w v]|]; [|by rewrite Hrun].
    destruct Hrun as (D & VD & VT & W & XW & _ & _ & _ & _ & HsW & HXW & HsXW & Hrun).
    exists (length σ + 12)%nat, (length σ + 11)%nat, W, XW. rewrite Hrun. simpl.
    split; [done|]. split; [|split; [|done]].
    + rewrite lookup_app_r by lia.
      by replace (length σ + 11 - length σ)%nat with 11%nat by lia.
    + rewrite lookup_app_r by lia.
      by replace (length σ + 12 - length σ)%nat with 12%nat by lia.
Qed.

Lemma whiten_signal_unchecked_witness :
  (∀ e, (whiten_signal seq_mean seq_dot sqrt_pow eigh_nan 0%nat [two_by_one]).1 = Raise e ->
     e = LinAlgError ∧ exn_name e ≠ "NumericalInstabilityError"%string) ∧
  ∃ Xm Xc C,
    mean_axis1_keepdims seq_mean two_by_one = Ok Xm ∧ subtract two_by_one Xm = Ok Xc ∧
    cov seq_mean seq_dot Xc = Ok C ∧
    match eigh_nan 2 (data C) with
    | None => (whiten_signal seq_mean seq_dot sqrt_pow eigh_nan 0%nat [two_by_one]).1
              = Raise LinAlgError
    | Some (w, v) =>
        ∃ x_white white_mtx W XW,
          (whiten_signal seq_mean seq_dot sqrt_pow eigh_nan 0%nat [two_by_one]).1
            = Ok (x_white, white_mtx) ∧
          (whiten_signal seq_mean seq_dot sqrt_pow eigh_nan 0%nat [two_by_one]).2 !! white_mtx
            = Some W ∧
          (whiten_signal seq_mean seq_dot sqrt_pow eigh_nan 0%nat [two_by_one]).2 !! x_white
            = Some XW ∧
          shape W = [2%nat; 2%nat] ∧ matmul seq_dot W Xc = Ok XW ∧ shape XW = [2%nat; 1%nat]
    end.
Proof.
  apply (whiten_signal_unchecked seq_mean seq_dot sqrt_pow eigh_nan
           [two_by_one] 0%nat two_by_one 2%nat 1%nat).
  - reflexivity.
  - reflexivity.
  - lia.
Defined.

(** C6 fails on the code.  On two channels of one sample each, [[[1], [2]]],
    the covariance handed to the eigensolver is NaN throughout, so the run
    produces non-finite values whatever the eigensolver and the power kernel
    do; no choice of them makes [whiten_signal] end in a
    [NumericalInstabilityError].  When the eigensolver answers NaN, the call
    returns a whitening matrix and a whitened signal of NaN; when it reports
    no convergence, the call ends in its [LinAlgError]. *)
Lemma whiten_signal_hides_instability :
  (¬ ∃ pow_k eigh_k, surfaces_instability seq_mean seq_dot pow_k eigh_k) ∧
  (∃ σ', whiten_signal seq_mean seq_dot sqrt_pow eigh_nan 0%nat [two_by_one]
           = (Ok (13%nat, 12%nat), σ') ∧
         σ' !! 12%nat = Some {| shape := [2%nat; 2%nat]; data := [nan; nan; nan; nan] |} ∧
         σ' !! 13%nat = Some {| shape := [2%nat; 1%nat]; data := [nan; nan] |}) ∧
  (∃ σ', whiten_signal seq_mean seq_dot sqrt_pow eigh_fail 0%nat [two_by_one]
           = (Raise LinAlgError, σ') ∧
         σ' !! 3%nat = Some {| shape := [2%nat; 2%nat]; data := [nan; nan; nan; nan] |}).
Proof.
  split; [|split].
  - intros (pow_k & eigh_k & Hclaim).
    destruct (Hclaim [two_by_one] 0%nat two_by_one 2%nat 1%nat eq_refl eq_refl eq_refl)
      as (e & _ & He); [|by destruct e].
    destruct (whiten_signal_run seq_mean seq_dot pow_k eigh_k [two_by_one] 0%nat two_by_one
                2 1 eq_refl eq_refl ltac:(lia))
      as (Xm & Xc & C & HXm & HXc & _ & HC & _ & Hrun).
    vm_compute in HXm. injection HXm as <-.
    vm_compute in HXc. injection HXc as <-.
    vm_compute in HC. injection HC as <-.
    exists 3%nat, {| shape := [2%nat; 2%nat]; data := [nan; nan; nan; nan] |}, nan.
    split; [simpl; lia|]. split; [|split; [by left|done]].
    cbn [data] in Hrun. cbv zeta in Hrun.
    destruct (eigh_k 2%nat _) as [[w v]|].
    + destruct Hrun as (D & VD & VT & W & XW & _ & _ & _ & _ & _ & _ & _ & ->). done.
    + by rewrite Hrun.
  - eexists. split; [by vm_compute|]. split; reflexivity.
  - eexists. split; [by vm_compute|]. reflexivity.
Qed.

(** C7, as the code has it.  [whiten_signal] has the single parameter [x]:
    a call binds when it passes [x] alone, and one that passes [eps] (or
    any second argument) does not.  The regulariser is the constant [1e-10]
    of the body: on every run where the eigensolver returns eigenvalues [w]
    and eigenvectors [V], the whitening matrix returned is
    [V @ diag(1 / (w + 1e-10) ** 0.5) @ V.T]. *)
Theorem whiten_signal_eps_constant
    (mean_k : list float -> float) (dot_k : list float -> list float -> float)
    (pow_k : float -> float -> float)
    (eigh_k : nat -> list float -> option (list float * list float)) :
  (∀ args kwargs env,
     bind_args whiten_signal_params args kwargs = Ok env ->
     assoc "eps" kwargs = None ∧ (length args ≤ 1)%nat ∧ ∃ v, env = [("x"%string, v)]) ∧
  (∀ (σ : store) (x : loc) (X : ndarray) (n m : nat),
     σ !! x = Some X -> shape X = [n; m] -> (2 ≤ n)%nat ->
     ∃ Xm Xc C,
       mean_axis1_keepdims mean_k X = Ok Xm ∧ subtract X Xm = Ok Xc ∧
       cov mean_k dot_k Xc = Ok C ∧
       ∀ w v, eigh_k n (data C) = Some (w, v) ->
         ∃ D VD VT W x_white white_mtx,
           diag {| shape := [n];
                   data := (fun e => 1 / pow_k (e + 1e-10) 0.5)%float <$> w |} = Ok D ∧
           matmul dot_k {| shape := [n; n]; data := v |} D = Ok VD ∧
           transpose {| shape := [n; n]; data := v |} = Ok VT ∧
           matmul dot_k VD VT = Ok W ∧
           (whiten_signal mean_k dot_k pow_k eigh_k x σ).1 = Ok (x_white, white_mtx) ∧
           (whiten_signal mean_k dot_k pow_k eigh_k x σ).2 !! white_mtx = Some W).
Proof.
  split; [apply bind_args_whiten_signal|].
  intros σ x X n m Hx HX Hn.
  destruct (whiten_signal_run mean_k dot_k pow_k eigh_k σ x X n m Hx HX Hn)
    as (Xm & Xc & C & HXm & HXc & HsXc & HC & HsC & Hrun).
  exists Xm, Xc, C. repeat (split; [done|]).
  intros w v Heigh. rewrite Heigh in Hrun. cbv zeta in Hrun.
  destruct Hrun as (D & VD & VT & W & XW & HD & HVD & HVT & HW & _ & _ & _ & Hrun).
  rewrite inv_root_of_eq in HD.
  exists D, VD, VT, W, (length σ + 12)%nat, (length σ + 11)%nat.
  repeat (split; [done|]). rewrite Hrun. simpl. split; [done|].
  rewrite lookup_app_r by lia.
  by replace (length σ + 11 - length σ)%nat with 11%nat by lia.
Qed.

Lemma whiten_signal_eps_constant_witness :
  ∃ Xm Xc C,
    mean_axis1_keepdims seq_mean two_by_one = Ok Xm ∧ subtract two_by_one Xm = Ok Xc ∧
    cov seq_mean seq_dot Xc = Ok C ∧
    ∀ w v, eigh_nan 2 (data C) = Some (w, v) ->
      ∃ D VD VT W x_white white_mtx,
        diag {| shape := [2%nat];
                data := (fun e => 1 / sqrt_pow (e + 1e-10) 0.5)%float <$> w |} = Ok D ∧
        matmul seq_dot {| shape := [2%nat; 2%nat]; data := v |} D = Ok VD ∧
        transpose {| shape := [2%nat; 2%nat]; data := v |} = Ok VT ∧
        matmul seq_dot VD VT = Ok W ∧
        (whiten_signal seq_mean seq_dot sqrt_pow eigh_nan 0%nat [two_by_one]).1
          = Ok (x_white, white_mtx) ∧
        (whiten_signal seq_mean seq_dot sqrt_pow eigh_nan 0%nat [two_by_one]).2 !! white_mtx
          = Some W.
Proof.
  apply (proj2 (whiten_signal_eps_constant seq_mean seq_dot sqrt_pow eigh_nan)
           [two_by_one] 0%nat two_by_one 2%nat 1%nat).
  - reflexivity.
  - reflexivity.
  - lia.
Defined.

(** C7 fails on the code: a call [whiten_signal(x, eps=1e-3)] raises
    [TypeError] when its arguments are bound, and so does a call that passes
    the value as a second positional argument. *)
Lemma whiten_signal_rejects_eps :
  bind_args whiten_signal_params [VArray 0%nat] [("eps"%string, VFloat 1e-3)] = Raise TypeError ∧
  bind_args whiten_signal_params [VArray 0%nat; VFloat 1e-3] [] = Raise TypeError ∧
  call_whiten_signal seq_mean seq_dot sqrt_pow eigh_nan
    [VArray 0%nat] [("eps"%string, VFloat 1e-3)] [scenario_A] = (Raise TypeError, [scenario_A]).
Proof. repeat split; reflexivity. Qed.

(** C8. Neither function changes an array that existed before the call, its
    input included: the store after the call extends the store before it,
    and the arrays returned are new ones. *)
Theorem inputs_not_mutated
    (mean_k : list float -> float) (dot_k : list float -> list float -> float)
    (pow_k : float -> float -> float)
    (eigh_k : nat -> list float -> option (list float * list float))
    (σ : store) (x : loc) (X : ndarray) (r : Z) :
  σ !! x = Some X ->
  ((extend_signal x r σ).2 !! x = Some X ∧
   σ `prefix_of` (extend_signal x r σ).2 ∧
   ∀ x_ext, (extend_signal x r σ).1 = Ok x_ext -> (length σ ≤ x_ext)%nat) ∧
  ((whiten_signal mean_k dot_k pow_k eigh_k x σ).2 !! x = Some X ∧
   σ `prefix_of` (whiten_signal mean_k dot_k pow_k eigh_k x σ).2 ∧
   ∀ x_white white_mtx,
     (whiten_signal mean_k dot_k pow_k eigh_k x σ).1 = Ok (x_white, white_mtx) ->
     (length σ ≤ x_white)%nat ∧ (length σ ≤ white_mtx)%nat).
Proof.
  intros Hx. split.
  - destruct (keeps_extend_signal σ x r σ) as [Hpre Hfresh]; [done|].
    split; [by eapply prefix_lookup_Some|]. split; [done|]. apply Hfresh.
  - destruct (keeps_whiten_signal mean_k dot_k pow_k eigh_k σ x σ) as [Hpre Hfresh]; [done|].
    split; [by eapply prefix_lookup_Some|]. split; [done|].
    intros x_white white_mtx Hret. apply (Hfresh _ Hret).
Qed.

Lemma inputs_not_mutated_witness :
  ((extend_signal 0%nat 1 [scenario_A]).2 !! 0%nat = Some scenario_A ∧
   [scenario_A] `prefix_of` (extend_signal 0%nat 1 [scenario_A]).2 ∧
   ∀ x_ext, (extend_signal 0%nat 1 [scenario_A]).1 = Ok x_ext -> (length [scenario_A] ≤ x_ext)%nat) ∧
  ((whiten_signal seq_mean seq_dot sqrt_pow eigh_nan 0%nat [scenario_A]).2 !! 0%nat
     = Some scenario_A ∧
   [scenario_A] `prefix_of` (whiten_signal seq_mean seq_dot sqrt_pow eigh_nan 0%nat [scenario_A]).2 ∧
   ∀ x_white white_mtx,
     (whiten_signal seq_mean seq_dot sqrt_pow eigh_nan 0%nat [scenario_A]).1
       = Ok (x_white, white_mtx) ->
     (length [scenario_A] ≤ x_white)%nat ∧ (length [scenario_A] ≤ white_mtx)%nat).
Proof.
  apply (inputs_not_mutated seq_mean seq_dot sqrt_pow eigh_nan [scenario_A] 0%nat scenario_A 1).
  reflexivity.
Defined.

(** C9. On a machine, [extend_signal] with [r >= 0] returns exactly when
    [np.zeros] can index and obtain the result, and then a block [k] with
    [k >= n_samples] is zero throughout, also when a delay is as long as the
    signal or longer.  Otherwise [np.zeros] raises and nothing is allocated:
    [ValueError] when eight bytes times the extents of the result (an
    extent of zero counting as one) exceed the largest index, [MemoryError]
    when the allocator does not serve the request. *)
Theorem extend_signal_long_delay_on_machine (can_alloc : Z -> bool)
    (σ : store) (x : loc) (X : ndarray) (n m : nat) (r : Z) :
  σ !! x = Some X -> shape X = [n; m] -> wf X -> 0 ≤ r ->
  (Machine.intp_max < 8 * Z.max 1 (Z.of_nat n * (r + 1)) * Z.max 1 (Z.of_nat m) ->
     Machine.extend_signal can_alloc x r σ = (Raise ValueError, σ)) ∧
  (8 * Z.max 1 (Z.of_nat n * (r + 1)) * Z.max 1 (Z.of_nat m) ≤ Machine.intp_max ->
     can_alloc (8 * (Z.of_nat n * (r + 1)) * Z.of_nat m) = false ->
     Machine.extend_signal can_alloc x r σ = (Raise MemoryError, σ)) ∧
  (8 * Z.max 1 (Z.of_nat n * (r + 1)) * Z.max 1 (Z.of_nat m) ≤ Machine.intp_max ->
     can_alloc (8 * (Z.of_nat n * (r + 1)) * Z.of_nat m) = true ->
     ∃ Y, Machine.extend_signal can_alloc x r σ = (Ok (length σ), σ ++ [Y]) ∧
       ∀ k c j, (k ≤ Z.to_nat r)%nat -> (m ≤ k)%nat -> (c < n)%nat -> (j < m)%nat ->
         get2 Y (k * n + c) j = Some 0%float).
Proof.
  intros Hx HX Hwf Hr. split; [|split].
  - intros Hbig. apply (extend_signal_not_allocated _ _ _ X n m); [done..|].
    apply np_zeros_too_big; lia.
  - intros Hfit Hno. apply (extend_signal_not_allocated _ _ _ X n m); [done..|].
    apply np_zeros_not_served; (done || lia).
  - intros Hfit Hyes. rewrite (extend_signal_served _ _ _ X n m) by done.
    destruct (extend_signal_run σ x X n m (Z.to_nat r) Hx HX Hwf) as (Y & Hrun & Hinv).
    rewrite Z2Nat.id in Hrun by done.
    exists Y. split; [done|]. intros k c j Hk Hmk Hc Hj.
    rewrite (ext_inv_get2 X Y n m _ _ k c j Hinv) by done.
    destruct (Nat.leb_spec k (Z.to_nat r)); [|done].
    unfold delayed. by destruct (Nat.ltb_spec j k); [|lia].
Qed.

Lemma extend_signal_long_delay_on_machine_witness :
  (Machine.intp_max < 8 * Z.max 1 (Z.of_nat 2 * (7 + 1)) * Z.max 1 (Z.of_nat 5) ->
     Machine.extend_signal (fun b => b <=? 2 ^ 30) 0%nat 7 [scenario_A] =
       (Raise ValueError, [scenario_A])) ∧
  (8 * Z.max 1 (Z.of_nat 2 * (7 + 1)) * Z.max 1 (Z.of_nat 5) ≤ Machine.intp_max ->
     (8 * (Z.of_nat 2 * (7 + 1)) * Z.of_nat 5 <=? 2 ^ 30) = false ->
     Machine.extend_signal (fun b => b <=? 2 ^ 30) 0%nat 7 [scenario_A] =
       (Raise MemoryError, [scenario_A])) ∧
  (8 * Z.max 1 (Z.of_nat 2 * (7 + 1)) * Z.max 1 (Z.of_nat 5) ≤ Machine.intp_max ->
     (8 * (Z.of_nat 2 * (7 + 1)) * Z.of_nat 5 <=? 2 ^ 30) = true ->
     ∃ Y, Machine.extend_signal (fun b => b <=? 2 ^ 30) 0%nat 7 [scenario_A] =
            (Ok (length [scenario_A]), [scenario_A] ++ [Y]) ∧
       ∀ k c j, (k ≤ Z.to_nat 7)%nat -> (5 ≤ k)%nat -> (c < 2)%nat -> (j < 5)%nat ->
         get2 Y (k * 2 + c) j = Some 0%float).
Proof.
  apply (extend_signal_long_delay_on_machine (fun b => b <=? 2 ^ 30)
           [scenario_A] 0%nat scenario_A 2%nat 5%nat 7).
  - reflexivity.
  - reflexivity.
  - reflexivity.
  - lia.
Defined.

(** C9 fails on the code: [extend_signal(X, 2**62)] on the two-channel
    signal of scenario A asks [np.zeros] for [2**63 + 2] rows, more than an
    index holds, and [ValueError] is raised whatever memory the machine has;
    [extend_signal(X, 10**12)] on the one-channel signal [[[1, 2, 3]]] asks
    for 24 terabytes, and [MemoryError] is raised on a machine that serves
    no more than one. *)
Lemma extend_signal_refuses_long_delay :
  (0 ≤ 2 ^ 62 ∧
   Machine.extend_signal (fun _ => true) 0%nat (2 ^ 62) [scenario_A] =
     (Raise ValueError, [scenario_A])) ∧
  (0 ≤ 10 ^ 12 ∧
   Machine.extend_signal (fun b => b <=? 10 ^ 12) 0%nat (10 ^ 12) [one_by_three] =
     (Raise MemoryError, [one_by_three])).
Proof. repeat split; by vm_compute. Qed.

(** C10. On a matrix with a single row, [whiten_signal] raises: the
    covariance of a one-row matrix is squeezed to a 0-dimensional array, and
    [np.linalg.eigh] refuses it with [LinAlgError].  Nothing is returned. *)
Theorem whiten_signal_single_channel
    (mean_k : list float -> float) (dot_k : list float -> list float -> float)
    (pow_k : float -> float -> float)
    (eigh_k : nat -> list float -> option (list float * list float))
    (σ : store) (x : loc) (X : ndarray) (m : nat) :
  σ !! x = Some X -> shape X = [1%nat; m] ->
  ∃ Xm Xc C,
    mean_axis1_keepdims mean_k X = Ok Xm ∧ subtract X Xm = Ok Xc ∧
    cov mean_k dot_k Xc = Ok C ∧ shape C = [] ∧
    whiten_signal mean_k dot_k pow_k eigh_k x σ = (Raise LinAlgError, σ ++ [Xm; Xc; C]).
Proof.
  intros Hx HX.
  destruct (whiten_signal_covariance mean_k dot_k pow_k eigh_k σ x X 1 m Hx HX ltac:(lia))
    as (Xm & Xc & C & HXm & _ & HXc & _ & HC & HsC & Hrun).
  assert (squeeze [1%nat; 1%nat] = []) as Hsq by done.
  rewrite Hsq in HsC.
  exists Xm, Xc, C. repeat (split; [done|]).
  rewrite Hrun. apply bind_raise, (np_linalg_eigh_scalar _ _ _ C); [|done].
  rewrite lookup_app_r by lia.
  by replace (length σ + 2 - length σ)%nat with 2%nat by lia.
Qed.

Lemma whiten_signal_single_channel_witness :
  ∃ Xm Xc C,
    mean_axis1_keepdims seq_mean one_by_three = Ok Xm ∧ subtract one_by_three Xm = Ok Xc ∧
    cov seq_mean seq_dot Xc = Ok C ∧ shape C = [] ∧
    whiten_signal seq_mean seq_dot sqrt_pow eigh_nan 0%nat [one_by_three] =
    (Raise LinAlgError, [one_by_three] ++ [Xm; Xc; C]).
Proof.
  apply (whiten_signal_single_channel seq_mean seq_dot sqrt_pow eigh_nan
           [one_by_three] 0%nat one_by_three 3%nat); reflexivity.
Defined.

(** X1. On a matrix with at least two channels, whenever [whiten_signal]
    returns, the whitened signal has the shape of the input and the
    whitening matrix is square of side [n_channels]. *)
Theorem whiten_signal_shapes
    (mean_k : list float -> float) (dot_k : list float -> list float -> float)
    (pow_k : float -> float -> float)
    (eigh_k : nat -> list float -> option (list float * list float))
    (σ : store) (x : loc) (X : ndarray) (n m : nat) (x_white white_mtx : loc) :
  σ !! x = Some X -> shape X = [n; m] -> (2 ≤ n)%nat ->
  (whiten_signal mean_k dot_k pow_k eigh_k x σ).1 = Ok (x_white, white_mtx) ->
  ∃ XW W,
    (whiten_signal mean_k dot_k pow_k eigh_k x σ).2 !! x_white = Some XW ∧
    (whiten_signal mean_k dot_k pow_k eigh_k x σ).2 !! white_mtx = Some W ∧
    shape XW = shape X ∧ shape W = [n; n].
Proof.
  intros Hx HX Hn Hret.
  destruct (whiten_signal_run mean_k dot_k pow_k eigh_k σ x X n m Hx HX Hn)
    as (Xm & Xc & C & _ & _ & _ & _ & _ & Hrun).
  cbv zeta in Hrun. destruct (eigh_k n (data C)) as [[w v]|].
  2:{ by rewrite Hrun in Hret. }
  destruct Hrun as (D & VD & VT & W & XW & _ & _ & _ & _ & HsW & _ & HsXW & Hrun).
  rewrite Hrun in Hret |- *. simpl in Hret. injection Hret as <- <-.
  exists XW, W. simpl. rewrite HX. split; [|split; [|done]].
  - rewrite lookup_app_r by lia.
    by replace (length σ + 12 - length σ)%nat with 12%nat by lia.
  - rewrite lookup_app_r by lia.
    by replace (length σ + 11 - length σ)%nat with 11%nat by lia.
Qed.

Lemma whiten_signal_shapes_witness :
  ∃ XW W,
    (whiten_signal seq_mean seq_dot sqrt_pow eigh_nan 0%nat [two_by_one]).2 !! 13%nat = Some XW ∧
    (whiten_signal seq_mean seq_dot sqrt_pow eigh_nan 0%nat [two_by_one]).2 !! 12%nat = Some W ∧
    shape XW = shape two_by_one ∧ shape W = [2%nat; 2%nat].
Proof.
  apply (whiten_signal_shapes seq_mean seq_dot sqrt_pow eigh_nan
           [two_by_one] 0%nat two_by_one 2%nat 1%nat 13%nat 12%nat).
  - reflexivity.
  - reflexivity.
  - lia.
  - reflexivity.
Defined.

(** * Further properties *)

(** ** More on the delay embedding *)

(** The invariant fixes every entry of the buffer. *)
Lemma ext_inv_lookup (X Y : ndarray) (n m r k idx : nat) :
  ext_inv X n m r k Y -> (idx < n * (r + 1) * m)%nat ->
  data Y !! idx =
  Some (if (idx / m / n <=? k)%nat
        then delayed X m (idx / m / n) ((idx / m) mod n) (idx mod m)
        else 0%float).
Proof.
  intros (_ & _ & Hent) Hidx.
  assert (0 < m)%nat as Hm by nia.
  assert (0 < n)%nat as Hn by nia.
  pose proof (Nat.div_mod_eq idx m) as Hdm.
  pose proof (Nat.mod_upper_bound idx m ltac:(lia)) as Hj.
  pose proof (Nat.div_mod_eq (idx / m) n) as Hdn.
  pose proof (Nat.mod_upper_bound (idx / m) n ltac:(lia)) as Hc.
  assert (idx / m < n * (r + 1))%nat as Hrow by (apply Nat.Div0.div_lt_upper_bound; lia).
  assert (idx / m / n < r + 1)%nat as Hb by (apply Nat.Div0.div_lt_upper_bound; lia).
  rewrite <- (Hent (idx / m / n) ((idx / m) mod n) (idx mod m))%nat by lia.
  f_equal. nia.
Qed.

Lemma delayed_agree (X X' : ndarray) (n m m' k c j t : nat) :
  shape X = [n; m] -> shape X' = [n; m'] -> wf X -> wf X' ->
  (t ≤ m)%nat -> (t ≤ m')%nat ->
  (∀ c j, (c < n)%nat -> (j < t)%nat -> get2 X c j = get2 X' c j) ->
  (c < n)%nat -> (j < t)%nat ->
  delayed X m k c j = delayed X' m' k c j.
Proof.
  intros HX HX' Hwf Hwf' Htm Htm' Hagree Hc Hj.
  unfold delayed. destruct (Nat.ltb_spec j k); [done|].
  specialize (Hagree c (j - k)%nat Hc ltac:(lia)).
  rewrite (get2_delayed X n m c (j - k)), (get2_delayed X' n m' c (j - k)) in Hagree
    by first [done|lia].
  by injection Hagree.
Qed.

(** ** [whiten_signal] on arrays that are no matrices *)

Lemma broadcast_rev_axis1 (p : list nat) (d0 d1 : nat) :
  broadcast_rev (p ++ [d1; d0]) (p ++ [1%nat; d0]) = Some (p ++ [d1; d0]).
Proof.
  induction p as [|d p IH].
  - apply broadcast_rev_column.
  - simpl. by rewrite Nat.eqb_refl, IH.
Qed.

Lemma subtract_axis1 (a b : ndarray) (d0 d1 : nat) (rest : list nat) :
  shape a = d0 :: d1 :: rest -> shape b = d0 :: 1%nat :: rest ->
  ∃ c, subtract a b = Ok c ∧ shape c = d0 :: d1 :: rest.
Proof.
  intros Ha Hb. unfold subtract. rewrite Ha, Hb.
  assert (∀ d, rev (d0 :: d :: rest) = rev rest ++ [d; d0]) as Hrev.
  { intros d. simpl. by rewrite <- app_assoc. }
  rewrite !Hrev, broadcast_rev_axis1. eexists. split; [done|].
  simpl. by rewrite <- Hrev, rev_involutive.
Qed.

(** X2. The delay embedding is causal: when two signals with the same
    channels agree on their first [t] samples, their extensions agree on the
    first [t] columns of every block, whatever follows in either signal. *)
Theorem extend_signal_causal (σ σ' : store) (x x' : loc) (X X' : ndarray)
    (n m m' t : nat) (r : Z) :
  σ !! x = Some X -> σ' !! x' = Some X' ->
  shape X = [n; m] -> shape X' = [n; m'] -> wf X -> wf X' -> 0 ≤ r ->
  (t ≤ m)%nat -> (t ≤ m')%nat ->
  (∀ c j, (c < n)%nat -> (j < t)%nat -> get2 X c j = get2 X' c j) ->
  ∃ Y Y',
    extend_signal x r σ = (Ok (length σ), σ ++ [Y]) ∧
    extend_signal x' r σ' = (Ok (length σ'), σ' ++ [Y']) ∧
    ∀ k c j, (k ≤ Z.to_nat r)%nat -> (c < n)%nat -> (j < t)%nat ->
      is_Some (get2 Y (k * n + c) j) ∧ get2 Y (k * n + c) j = get2 Y' (k * n + c) j.
Proof.
  intros Hx Hx' HX HX' Hwf Hwf' Hr Htm Htm' Hagree.
  destruct (extend_signal_run σ x X n m (Z.to_nat r) Hx HX Hwf) as (Y & Hrun & Hinv).
  destruct (extend_signal_run σ' x' X' n m' (Z.to_nat r) Hx' HX' Hwf') as (Y' & Hrun' & Hinv').
  rewrite Z2Nat.id in Hrun, Hrun' by done.
  exists Y, Y'. repeat (split; [done|]). intros k c j Hk Hc Hj.
  rewrite (ext_inv_get2 X Y n m _ _ k c j Hinv) by first [done|lia].
  rewrite (ext_inv_get2 X' Y' n m' _ _ k c j Hinv') by first [done|lia].
  split; [done|]. destruct (Nat.leb_spec k (Z.to_nat r)); [|done].
  f_equal. by apply (delayed_agree X X' n m m' k c j t).
Qed.

Lemma extend_signal_causal_witness :
  ∃ Y Y',
    extend_signal 0%nat 1 [scenario_A] = (Ok (length [scenario_A]), [scenario_A] ++ [Y]) ∧
    extend_signal 0%nat 1 [of_rows 3 [[1; 2; 7]; [5; 4; 9]]%float] =
      (Ok (length [of_rows 3 [[1; 2; 7]; [5; 4; 9]]%float]),
       [of_rows 3 [[1; 2; 7]; [5; 4; 9]]%float] ++ [Y']) ∧
    ∀ k c j, (k ≤ Z.to_nat 1)%nat -> (c < 2)%nat -> (j < 2)%nat ->
      is_Some (get2 Y (k * 2 + c) j) ∧ get2 Y (k * 2 + c) j = get2 Y' (k * 2 + c) j.
Proof.
  apply (extend_signal_causal [scenario_A] [of_rows 3 [[1; 2; 7]; [5; 4; 9]]%float]
           0%nat 0%nat scenario_A (of_rows 3 [[1; 2; 7]; [5; 4; 9]]%float)
           2%nat 5%nat 3%nat 2%nat 1);
    try reflexivity; try lia.
  intros c j Hc Hj.
  destruct c as [|[|c]]; [| |lia]; (destruct j as [|[|j]]; [reflexivity|reflexivity|lia]).
Defined.

(** X3. Extensions are nested: the extension by [r] is the leading
    [n_channels * (r + 1)] rows of the extension by any larger factor. *)
Theorem extend_signal_nested (σ : store) (x : loc) (X : ndarray) (n m : nat) (r r' : Z) :
  σ !! x = Some X -> shape X = [n; m] -> wf X -> 0 ≤ r -> r ≤ r' ->
  ∃ Y Y',
    extend_signal x r σ = (Ok (length σ), σ ++ [Y]) ∧
    extend_signal x r' σ = (Ok (length σ), σ ++ [Y']) ∧
    shape Y = [(n * (Z.to_nat r + 1))%nat; m] ∧
    data Y = take (n * (Z.to_nat r + 1) * m) (data Y').
Proof.
  intros Hx HX Hwf Hr Hrr'.
  destruct (extend_signal_run σ x X n m (Z.to_nat r) Hx HX Hwf) as (Y & Hrun & Hinv).
  destruct (extend_signal_run σ x X n m (Z.to_nat r') Hx HX Hwf) as (Y' & Hrun' & Hinv').
  rewrite Z2Nat.id in Hrun, Hrun' by lia.
  exists Y, Y'. repeat (split; [done|]). split; [apply Hinv|].
  apply list_eq. intros idx.
  destruct (decide (idx < n * (Z.to_nat r + 1) * m)%nat) as [Hidx|Hidx].
  - rewrite lookup_take_lt by done.
    rewrite (ext_inv_lookup X Y n m _ _ idx Hinv Hidx).
    rewrite (ext_inv_lookup X Y' n m _ _ idx Hinv') by nia.
    assert (idx / m / n < Z.to_nat r + 1)%nat.
    { apply Nat.Div0.div_lt_upper_bound, Nat.Div0.div_lt_upper_bound. lia. }
    destruct (Nat.leb_spec (idx / m / n) (Z.to_nat r)); [|lia].
    by destruct (Nat.leb_spec (idx / m / n) (Z.to_nat r')); [|lia].
  - rewrite lookup_take_ge by lia.
    apply lookup_ge_None_2. destruct Hinv as (_ & -> & _). lia.
Qed.

Lemma extend_signal_nested_witness :
  ∃ Y Y',
    extend_signal 0%nat 1 [scenario_A] = (Ok (length [scenario_A]), [scenario_A] ++ [Y]) ∧
    extend_signal 0%nat 3 [scenario_A] = (Ok (length [scenario_A]), [scenario_A] ++ [Y']) ∧
    shape Y = [(2 * (Z.to_nat 1 + 1))%nat; 5%nat] ∧
    data Y = take (2 * (Z.to_nat 1 + 1) * 5) (data Y').
Proof.
  apply (extend_signal_nested [scenario_A] 0%nat scenario_A 2%nat 5%nat 1 3);
    first [reflexivity|lia].
Defined.

(** X4. Each block is the block before it delayed by one sample: its first
    column is zero and its column [j + 1] is column [j] of the block
    before. *)
Theorem extend_signal_shift (σ : store) (x : loc) (X : ndarray) (n m : nat) (r : Z) :
  σ !! x = Some X -> shape X = [n; m] -> wf X -> 0 ≤ r ->
  ∃ Y, extend_signal x r σ = (Ok (length σ), σ ++ [Y]) ∧
    ∀ k c, (k < Z.to_nat r)%nat -> (c < n)%nat ->
      ((0 < m)%nat -> get2 Y (S k * n + c) 0 = Some 0%float) ∧
      ∀ j, (S j < m)%nat ->
        is_Some (get2 Y (k * n + c) j) ∧
        get2 Y (S k * n + c) (S j) = get2 Y (k * n + c) j.
Proof.
  intros Hx HX Hwf Hr.
  destruct (extend_signal_run σ x X n m (Z.to_nat r) Hx HX Hwf) as (Y & Hrun & Hinv).
  rewrite Z2Nat.id in Hrun by done.
  exists Y. split; [done|]. intros k c Hk Hc. split.
  - intros Hm. rewrite (ext_inv_get2 X Y n m _ _ (S k) c 0 Hinv) by first [done|lia].
    by destruct (Nat.leb_spec (S k) (Z.to_nat r)).
  - intros j Hj.
    rewrite (ext_inv_get2 X Y n m _ _ (S k) c (S j) Hinv) by first [done|lia].
    rewrite (ext_inv_get2 X Y n m _ _ k c j Hinv) by first [done|lia].
    split; [done|].
    destruct (Nat.leb_spec (S k) (Z.to_nat r)); [|lia].
    destruct (Nat.leb_spec k (Z.to_nat r)); [|lia].
    done.
Qed.

Lemma extend_signal_shift_witness :
  ∃ Y, extend_signal 0%nat 3 [scenario_A] = (Ok (length [scenario_A]), [scenario_A] ++ [Y]) ∧
    ∀ k c, (k < Z.to_nat 3)%nat -> (c < 2)%nat ->
      ((0 < 5)%nat -> get2 Y (S k * 2 + c) 0 = Some 0%float) ∧
      ∀ j, (S j < 5)%nat ->
        is_Some (get2 Y (k * 2 + c) j) ∧
        get2 Y (S k * 2 + c) (S j) = get2 Y (k * 2 + c) j.
Proof.
  apply (extend_signal_shift [scenario_A] 0%nat scenario_A 2%nat 5%nat 3);
    first [reflexivity|lia].
Defined.

(** X5. Extension composes with whitening: a signal with at least one
    channel, extended by [r >= 1], always has the two rows [whiten_signal]
    needs (a single channel alone is refused, see C10).  On the extended
    signal [whiten_signal] fails only when the eigensolver does, and what it
    returns has [n_channels * (r + 1)] rows: a whitened signal of the shape
    of the extended one and a square whitening matrix. *)
Theorem extend_then_whiten
    (mean_k : list float -> float) (dot_k : list float -> list float -> float)
    (pow_k : float -> float -> float)
    (eigh_k : nat -> list float -> option (list float * list float))
    (σ : store) (x : loc) (X : ndarray) (n m : nat) (r : Z) :
  σ !! x = Some X -> shape X = [n; m] -> wf X -> (1 ≤ n)%nat -> 1 ≤ r ->
  ∃ Y, extend_signal x r σ = (Ok (length σ), σ ++ [Y]) ∧
    (∀ e, (whiten_signal mean_k dot_k pow_k eigh_k (length σ) (σ ++ [Y])).1 = Raise e ->
       e = LinAlgError) ∧
    (∀ x_white white_mtx,
       (whiten_signal mean_k dot_k pow_k eigh_k (length σ) (σ ++ [Y])).1
         = Ok (x_white, white_mtx) ->
       ∃ XW W,
         (whiten_signal mean_k dot_k pow_k eigh_k (length σ) (σ ++ [Y])).2 !! x_white
           = Some XW ∧
         (whiten_signal mean_k dot_k pow_k eigh_k (length σ) (σ ++ [Y])).2 !! white_mtx
           = Some W ∧
         shape XW = [(n * (Z.to_nat r + 1))%nat; m] ∧
         shape W = [(n * (Z.to_nat r + 1))%nat; (n * (Z.to_nat r + 1))%nat]).
Proof.
  intros Hx HX Hwf Hn Hr.
  destruct (extend_signal_run σ x X n m (Z.to_nat r) Hx HX Hwf) as (Y & Hrun & Hinv).
  rewrite Z2Nat.id in Hrun by lia.
  exists Y. split; [done|].
  destruct Hinv as (HY & _ & _).
  destruct (whiten_signal_run mean_k dot_k pow_k eigh_k (σ ++ [Y]) (length σ) Y
              (n * (Z.to_nat r + 1)) m (store_snoc_new σ Y) HY ltac:(nia))
    as (Xm & Xc & C & _ & _ & _ & _ & _ & Hwhiten).
  cbv zeta in Hwhiten.
  destruct (eigh_k (n * (Z.to_nat r + 1))%nat (data C)) as [[w v]|].
  - destruct Hwhiten as (D & VD & VT & W & XW & _ & _ & _ & _ & HsW & _ & HsXW & ->).
    split; [done|]. intros x_white white_mtx [= <- <-].
    exists XW, W. simpl. split; [|split; [|done]].
    + rewrite lookup_app_r by lia.
      by replace (length (σ ++ [Y]) + 12 - length (σ ++ [Y]))%nat with 12%nat by lia.
    + rewrite lookup_app_r by lia.
      by replace (length (σ ++ [Y]) + 11 - length (σ ++ [Y]))%nat with 11%nat by lia.
  - rewrite Hwhiten. simpl. split; [by intros e [= <-]|done].
Qed.

Lemma extend_then_whiten_witness :
  ∃ Y, extend_signal 0%nat 1 [one_by_three] = (Ok (length [one_by_three]), [one_by_three] ++ [Y]) ∧
    (∀ e, (whiten_signal seq_mean seq_dot sqrt_pow eigh_fail
             (length [one_by_three]) ([one_by_three] ++ [Y])).1 = Raise e ->
       e = LinAlgError) ∧
    (∀ x_white white_mtx,
       (whiten_signal seq_mean seq_dot sqrt_pow eigh_fail
          (length [one_by_three]) ([one_by_three] ++ [Y])).1 = Ok (x_white, white_mtx) ->
       ∃ XW W,
         (whiten_signal seq_mean seq_dot sqrt_pow eigh_fail
            (length [one_by_three]) ([one_by_three] ++ [Y])).2 !! x_white = Some XW ∧
         (whiten_signal seq_mean seq_dot sqrt_pow eigh_fail
            (length [one_by_three]) ([one_by_three] ++ [Y])).2 !! white_mtx = Some W ∧
         shape XW = [(1 * (Z.to_nat 1 + 1))%nat; 3%nat] ∧
         shape W = [(1 * (Z.to_nat 1 + 1))%nat; (1 * (Z.to_nat 1 + 1))%nat]).
Proof.
  apply (extend_then_whiten seq_mean seq_dot sqrt_pow eigh_fail
           [one_by_three] 0%nat one_by_three 1%nat 3%nat 1);
    first [reflexivity|lia].
Defined.

(** X6. [whiten_signal] on an array that is no matrix.  With fewer than two
    dimensions, [np.mean(x, axis=1)] raises [AxisError] and nothing is
    allocated.  With more than two, the mean and the centred array are
    computed, the latter with the shape of the input, and [np.cov] then
    raises [ValueError]. *)
Theorem whiten_signal_wrong_rank
    (mean_k : list float -> float) (dot_k : list float -> list float -> float)
    (pow_k : float -> float -> float)
    (eigh_k : nat -> list float -> option (list float * list float))
    (σ : store) (x : loc) (X : ndarray) :
  σ !! x = Some X ->
  ((length (shape X) < 2)%nat ->
     whiten_signal mean_k dot_k pow_k eigh_k x σ = (Raise AxisError, σ)) ∧
  ((2 < length (shape X))%nat ->
     ∃ Xm Xc,
       mean_axis1_keepdims mean_k X = Ok Xm ∧ subtract X Xm = Ok Xc ∧
       shape Xc = shape X ∧
       whiten_signal mean_k dot_k pow_k eigh_k x σ = (Raise ValueError, σ ++ [Xm; Xc])).
Proof.
  intros Hx. split; intros Hrank.
  - unfold whiten_signal, np_mean_axis1_keepdims.
    apply bind_raise. rewrite (bind_ok _ _ _ _ _ (load_ok _ _ _ Hx)).
    unfold mean_axis1_keepdims.
    destruct (shape X) as [|d0 [|d1 rest]]; [done|done|simpl in Hrank; lia].
  - destruct (shape X) as [|d0 [|d1 [|d2 rest]]] eqn:HX; try (simpl in Hrank; lia).
    assert (∃ Xm, mean_axis1_keepdims mean_k X = Ok Xm ∧ shape Xm = d0 :: 1%nat :: d2 :: rest)
      as (Xm & HXm & HsXm).
    { unfold mean_axis1_keepdims. rewrite HX. by eexists. }
    destruct (subtract_axis1 X Xm d0 d1 (d2 :: rest) HX HsXm) as (Xc & HXc & HsXc).
    exists Xm, Xc. repeat (split; [done|]).
    unfold whiten_signal, np_mean_axis1_keepdims, np_subtract, np_cov.
    rewrite (bind_ok _ _ _ _ _ (run_unary _ x σ X Xm Hx HXm)).
    rewrite (bind_ok _ _ _ _ _ (run_binary subtract x (length σ) (σ ++ [Xm]) X Xm Xc
               ltac:(lookup_store) ltac:(lookup_store) HXc)).
    replace (σ ++ [Xm; Xc]) with ((σ ++ [Xm]) ++ [Xc]) by (by rewrite <- app_assoc).
    apply bind_raise.
    rewrite (bind_ok _ _ _ _ _ (load_ok _ _ Xc ltac:(lookup_store))).
    unfold cov. by rewrite HsXc.
Qed.

Lemma whiten_signal_wrong_rank_witness :
  ((length (shape {| shape := [2; 2; 2]%nat; data := [1; 2; 3; 4; 5; 6; 7; 8]%float |}) < 2)%nat ->
     whiten_signal seq_mean seq_dot sqrt_pow eigh_fail 0%nat
       [{| shape := [2; 2; 2]%nat; data := [1; 2; 3; 4; 5; 6; 7; 8]%float |}]
     = (Raise AxisError,
        [{| shape := [2; 2; 2]%nat; data := [1; 2; 3; 4; 5; 6; 7; 8]%float |}])) ∧
  ((2 < length (shape {| shape := [2; 2; 2]%nat; data := [1; 2; 3; 4; 5; 6; 7; 8]%float |}))%nat ->
     ∃ Xm Xc,
       mean_axis1_keepdims seq_mean
         {| shape := [2; 2; 2]%nat; data := [1; 2; 3; 4; 5; 6; 7; 8]%float |} = Ok Xm ∧
       subtract {| shape := [2; 2; 2]%nat; data := [1; 2; 3; 4; 5; 6; 7; 8]%float |} Xm
         = Ok Xc ∧
       shape Xc = shape {| shape := [2; 2; 2]%nat; data := [1; 2; 3; 4; 5; 6; 7; 8]%float |} ∧
       whiten_signal seq_mean seq_dot sqrt_pow eigh_fail 0%nat
         [{| shape := [2; 2; 2]%nat; data := [1; 2; 3; 4; 5; 6; 7; 8]%float |}]
       = (Raise ValueError,
          [{| shape := [2; 2; 2]%nat; data := [1; 2; 3; 4; 5; 6; 7; 8]%float |}] ++ [Xm; Xc])).
Proof.
  apply (whiten_signal_wrong_rank seq_mean seq_dot sqrt_pow eigh_fail
           [{| shape := [2; 2; 2]%nat; data := [1; 2; 3; 4; 5; 6; 7; 8]%float |}] 0%nat).
  reflexivity.
Defined.


(** ** Strings *)

#[local] Arguments Ascii.eqb : simpl never.

Lemma has_char_append (c : ascii) (a b : string) :
  has_char c (String.append a b) = has_char c a || has_char c b.
Proof.
  induction a as [|x a IH]; simpl; [done|]. by rewrite IH, orb_assoc.
Qed.

Lemma append_cancel_l (p u u' : string) :
  String.append p u = String.append p u' -> u = u'.
Proof.
  induction p as [|x p IH]; simpl; [done|]. intros [= H]. by apply IH.
Qed.

(** Two strings cut at the first occurrence of a character agree part by
    part. *)
Lemma split_at_char (c : ascii) (a a' b b' : string) :
  has_char c a = false -> has_char c a' = false ->
  String.append a (String c b) = String.append a' (String c b') ->
  a = a' ∧ b = b'.
Proof.
  revert a'. induction a as [|x a IH]; intros [|x' a']; simpl.
  - by intros _ _ [= ->].
  - intros _ [Hx _]%orb_false_elim [= <- _]. by rewrite Ascii.eqb_refl in Hx.
  - intros [Hx _]%orb_false_elim _ [= -> _]. by rewrite Ascii.eqb_refl in Hx.
  - intros [_ Ha]%orb_false_elim [_ Ha']%orb_false_elim [= -> H].
    destruct (IH a' Ha Ha' H) as [-> ->]. done.
Qed.

Lemma ends_with_sep_append (a b : string) :
  b ≠ EmptyString -> ends_with_sep (String.append a b) = ends_with_sep b.
Proof.
  intros Hb. induction a as [|x a IH]; simpl; [done|].
  rewrite <- IH. destruct (String.append a b) eqn:Hab; [|done].
  destruct a, b; done.
Qed.

Lemma no_sep_ends (b : string) : has_char "/" b = false -> ends_with_sep b = false.
Proof.
  induction b as [|x b IH]; simpl; [done|].
  intros [Hx Hb]%orb_false_elim. destruct b; [done|]. by apply IH.
Qed.

Lemma no_sep_starts (b : string) : has_char "/" b = false -> starts_with_sep b = false.
Proof. destruct b; simpl; [done|]. by intros [? _]%orb_false_elim. Qed.

(** A path joined with three relative components, the first two free of
    separators: the components follow the root, a separator between
    them. *)
Lemma os_path_join_3 (root a b c : string) :
  a ≠ EmptyString -> b ≠ EmptyString ->
  has_char "/" a = false -> has_char "/" b = false -> starts_with_sep c = false ->
  os_path_join root [a; b; c] =
  String.append (join2 root a) (String "/" (String.append b (String "/" c))).
Proof.
  intros Ha Hb Hsa Hsb Hc. unfold os_path_join. simpl.
  assert (∀ p q, q ≠ EmptyString -> has_char "/" q = false ->
            ends_with_sep (join2 p q) = false ∧ join2 p q ≠ EmptyString) as Hjoin.
  { intros p q Hq Hsq. unfold join2. rewrite (no_sep_starts q Hsq).
    destruct (_ || _).
    - rewrite ends_with_sep_append by done. split; [by apply no_sep_ends|].
      destruct p, q; done.
    - assert (String.append p (String "/" q) =
              String.append (String.append p "/") q) as ->.
      { clear. induction p as [|x p IH]; simpl; [done|]. by rewrite IH. }
      rewrite ends_with_sep_append by done. split; [by apply no_sep_ends|].
      destruct p, q; done. }
  destruct (Hjoin root a Ha Hsa) as [He1 Hn1].
  destruct (Hjoin (join2 root a) b Hb Hsb) as [He2 Hn2].
  unfold join2 at 1. rewrite Hc, He2.
  replace (String.eqb (join2 (join2 root a) b) "") with false.
  2:{ symmetry. by apply String.eqb_neq. }
  simpl. unfold join2 at 1. rewrite (no_sep_starts b Hsb), He1.
  replace (String.eqb (join2 root a) "") with false.
  2:{ symmetry. by apply String.eqb_neq. }
  simpl. clear. generalize (join2 root a). intros p.
  induction p as [|x p IH]; simpl; [done|]. by rewrite IH.
Qed.

(** ** Formatted integers *)

Lemma string_of_uint_digits (c : ascii) (d : Decimal.uint) :
  digit c = false ->
  has_char c (DecimalString.NilEmpty.string_of_uint d) = false.
Proof.
  unfold digit. simpl. intros Hc.
  repeat (apply orb_false_elim in Hc as [? Hc]).
  induction d as [|d IH|d IH|d IH|d IH|d IH|d IH|d IH|d IH|d IH|d IH]; simpl;
    [done|..]; rewrite IH, orb_false_r, Ascii.eqb_sym; done.
Qed.

Lemma py_str_uint (z : Z) :
  0 ≤ z -> py_str z = DecimalString.NilEmpty.string_of_uint (N.to_uint (Z.to_N z))
           ∧ N.to_uint (Z.to_N z) ≠ Decimal.Nil.
Proof.
  intros Hz. unfold py_str.
  destruct z as [|p|p]; [done| |lia].
  simpl. pose proof (DecimalPos.Unsigned.to_uint_nonnil p) as Hp.
  split; [|done]. unfold DecimalString.NilZero.string_of_uint.
  by destruct (Pos.to_uint p).
Qed.

Lemma py_str_neg (z : Z) :
  z < 0 -> py_str z = String "-" (py_str (Z.abs z)).
Proof. intros Hz. destruct z as [|p|p]; [lia|lia|done]. Qed.

Lemma py_str_chars (c : ascii) (z : Z) :
  digit_or_sign c = false -> has_char c (py_str z) = false.
Proof.
  intros Hc. destruct (Z.ltb_spec z 0) as [Hz|Hz].
  - rewrite py_str_neg by done. simpl.
    destruct (py_str_uint (Z.abs z)) as [-> _]; [lia|].
    apply orb_false_elim in Hc as [Hs Hc].
    by rewrite (string_of_uint_digits c _ Hc), orb_false_r, Ascii.eqb_sym.
  - destruct (py_str_uint z Hz) as [-> _]. apply string_of_uint_digits.
    by apply orb_false_elim in Hc as [_ Hc].
Qed.

Lemma py_str_nonempty (z : Z) : py_str z ≠ EmptyString.
Proof.
  destruct (Z.ltb_spec z 0) as [Hz|Hz].
  - by rewrite py_str_neg.
  - destruct (py_str_uint z Hz) as [-> Hnil]. by destruct (N.to_uint (Z.to_N z)).
Qed.

Lemma zeros_digits (c : ascii) (k : nat) :
  digit c = false -> has_char c (zeros k) = false.
Proof.
  unfold digit. simpl. intros Hc. apply orb_false_elim in Hc as [Hc _].
  induction k as [|k IH]; simpl; [done|]. by rewrite IH, Ascii.eqb_sym, Hc.
Qed.

Lemma format_0d_chars (c : ascii) (w : nat) (z : Z) :
  digit_or_sign c = false -> has_char c (format_0d w z) = false.
Proof.
  intros Hc. unfold format_0d.
  rewrite !has_char_append, py_str_chars by done.
  apply orb_false_elim in Hc as [Hs Hc]. rewrite zeros_digits by done.
  destruct (z <? 0); [|done]. simpl. by rewrite Ascii.eqb_sym, Hs.
Qed.

Lemma format_0d_nonempty (w : nat) (z : Z) : format_0d w z ≠ EmptyString.
Proof.
  unfold format_0d. pose proof (py_str_nonempty (Z.abs z)) as Hne.
  destruct (z <? 0); [done|]. simpl.
  destruct (zeros _); [|done]. done.
Qed.

(** Leading zeros do not change the number read. *)
Lemma uint_of_zeros (k : nat) (d : Decimal.uint) :
  option_map Z.of_uint
    (DecimalString.NilEmpty.uint_of_string
       (String.append (zeros k) (DecimalString.NilEmpty.string_of_uint d)))
  = Some (Z.of_uint d).
Proof.
  induction k as [|k IH]; simpl.
  - by rewrite DecimalString.NilEmpty.usu.
  - destruct (DecimalString.NilEmpty.uint_of_string _); [|done].
    simpl in *. done.
Qed.

(** Reading a formatted integer gives the integer back, for every width. *)
Lemma parse_format_0d (w : nat) (z : Z) : parse_int (format_0d w z) = Some z.
Proof.
  unfold parse_int, format_0d.
  destruct (py_str_uint (Z.abs z)) as [-> _]; [lia|].
  set (k := (w - _ - _)%nat). clearbody k.
  pose proof (uint_of_zeros k (N.to_uint (Z.to_N (Z.abs z)))) as Hread.
  assert (Z.of_uint (N.to_uint (Z.to_N (Z.abs z))) = Z.abs z) as Habs.
  { destruct (Z.abs z) eqn:Hz; [done| |lia].
    unfold Z.of_uint. simpl. by rewrite DecimalPos.Unsigned.of_to. }
  rewrite Habs in Hread.
  destruct (Z.ltb_spec z 0) as [Hz|Hz]; simpl.
  - destruct (DecimalString.NilEmpty.uint_of_string _) as [d|]; [|done].
    simpl in *. injection Hread as Hd. f_equal. lia.
  - set (s := String.append _ _) in *.
    assert (has_char "-" s = false) as Hs.
    { unfold s. by rewrite has_char_append, zeros_digits, string_of_uint_digits. }
    clearbody s. destruct s as [|a s'].
    { simpl in *. injection Hread as Hd. f_equal. lia. }
    simpl in Hs.
    apply orb_false_elim in Hs as [Ha _]. unfold DecimalString.NilEmpty.int_of_string.
    rewrite Ha.
    destruct (DecimalString.NilEmpty.uint_of_string _) as [d|]; [|done].
    simpl in *. injection Hread as Hd. f_equal. lia.
Qed.

Lemma format_0d_inj (w : nat) (z z' : Z) : format_0d w z = format_0d w z' -> z = z'.
Proof.
  intros H. apply (f_equal parse_int) in H. rewrite !parse_format_0d in H.
  by injection H.
Qed.

Lemma py_str_inj (z z' : Z) : py_str z = py_str z' -> z = z'.
Proof.
  unfold py_str. intros H. apply DecimalZ.to_int_inj.
  apply (f_equal DecimalString.NilZero.int_of_string) in H.
  rewrite !DecimalString.NilZero.isi in H.
  - by injection H.
  - destruct z'; simpl; [done|..]; intros [= Hp];
      by apply DecimalPos.Unsigned.to_uint_nonnil in Hp.
  - destruct z'; simpl; [done|..]; intros [= Hp];
      by apply DecimalPos.Unsigned.to_uint_nonnil in Hp.
  - destruct z; simpl; [done|..]; intros [= Hp];
      by apply DecimalPos.Unsigned.to_uint_nonnil in Hp.
  - destruct z; simpl; [done|..]; intros [= Hp];
      by apply DecimalPos.Unsigned.to_uint_nonnil in Hp.
Qed.

(** ** Record paths *)

#[local] Arguments format_0d : simpl never.
#[local] Arguments py_str : simpl never.

Lemma has_char_concat (c : ascii) (l : list string) :
  has_char c (String.concat EmptyString l) = existsb (has_char c) l.
Proof.
  induction l as [|x [|y l] IH]; [done| |].
  - simpl. by rewrite orb_false_r.
  - change (String.concat EmptyString (x :: y :: l))
      with (String.append x (String.concat EmptyString (y :: l))).
    by rewrite has_char_append, IH.
Qed.

Lemma task_type_chars (c : ascii) (s : string) :
  py_in s task_types = true -> digit_or_sign c = true \/ c = "_"%char \/ c = "/"%char ->
  has_char c s = false.
Proof.
  unfold py_in, task_types. simpl. intros Hs Hc.
  repeat (apply orb_prop in Hs as [Hs|Hs]); try done;
    apply String.eqb_eq in Hs as ->;
    destruct Hc as [Hc|[->| ->]]; try done;
    apply orb_prop in Hc as [->%Ascii.eqb_eq|Hc]; try done;
    unfold digit in Hc; simpl in Hc;
    repeat (apply orb_prop in Hc as [->%Ascii.eqb_eq|Hc]; try done).
Qed.

Lemma sig_type_chars (c : ascii) (s : string) :
  py_in s sig_types = true -> digit_or_sign c = true \/ c = "_"%char \/ c = "/"%char ->
  has_char c s = false.
Proof.
  unfold py_in, sig_types. simpl. intros Hs Hc.
  repeat (apply orb_prop in Hs as [Hs|Hs]); try done;
    apply String.eqb_eq in Hs as ->;
    destruct Hc as [Hc|[->| ->]]; try done;
    apply orb_prop in Hc as [->%Ascii.eqb_eq|Hc]; try done;
    unfold digit in Hc; simpl in Hc;
    repeat (apply orb_prop in Hc as [->%Ascii.eqb_eq|Hc]; try done).
Qed.

(** The side conditions of a cut: the part before the cut is a formatted
    integer or a valid type name. *)
Ltac no_char :=
  first [ by apply format_0d_chars
        | by apply py_str_chars
        | by (eapply task_type_chars; [eassumption|auto])
        | by (eapply sig_type_chars; [eassumption|auto])
        | by (rewrite has_char_concat; simpl;
              rewrite ?format_0d_chars, ?py_str_chars by done) ].

(** Cut both sides of [H] at the character [c]. *)
Tactic Notation "cut_at" constr(c) "in" hyp(H) "as" ident(H1) :=
  apply (split_at_char c) in H as [H1 H]; [|no_char..].

Lemma os_path_join_nil (a : string) : os_path_join a [] = a.
Proof. done. Qed.

Lemma append_assoc (a b c : string) :
  String.append (String.append a b) c = String.append a (String.append b c).
Proof. induction a as [|x a IH]; simpl; [done|]. by rewrite IH. Qed.

Ltac path_components H :=
  rewrite ?os_path_join_nil in H;
  rewrite !os_path_join_3 in H by (done || apply format_0d_nonempty || no_char);
  apply append_cancel_l in H; injection H as H.

(** X7. Two valid calls of [load_pr] under one root read the same record
    only when they name the same gesture, subject, session, trial, task,
    task type and signal type. *)
Theorem pr_path_injective (root : string) (g s se tr ta g' s' se' tr' ta' : Z)
    (tt st tt' st' : string) :
  py_in tt task_types = true -> py_in st sig_types = true ->
  py_in tt' task_types = true -> py_in st' sig_types = true ->
  pr_path root g s se tr ta tt st = pr_path root g' s' se' tr' ta' tt' st' <->
  (g, s, se, tr, ta, tt, st) = (g', s', se', tr', ta', tt', st').
Proof.
  intros Htt Hst Htt' Hst'. split; [|by intros [= -> -> -> -> -> -> ->]].
  intros H. unfold pr_path in H. path_components H.
  cut_at "/"%char in H as Hg. simpl in H. injection H as H.
  cut_at "_"%char in H as Hs. injection H as H.
  cut_at "_"%char in H as Hse.
  cut_at "_"%char in H as Ht.
  cut_at "_"%char in H as Hs'. injection H as H.
  cut_at "_"%char in H as Htr. injection H as H.
  apply format_0d_inj in Hg, Hs. apply py_str_inj in Hse, Htr, H. congruence.
Qed.

Lemma pr_path_injective_witness :
  pr_path "/data" 1 2 1 3 4 "dynamic" "raw" = pr_path "/data" 1 12 1 3 4 "maintenance" "raw" <->
  (1, 2, 1, 3, 4, "dynamic", "raw")%string = (1, 12, 1, 3, 4, "maintenance", "raw")%string.
Proof. apply (pr_path_injective "/data" 1 2 1 3 4 1 12 1 3 4); reflexivity. Defined.

(** X8. Two valid calls of [load_1dof] under one root read the same record
    only when they name the same subject, session, finger, sample and
    signal type. *)
Theorem onedof_path_injective (root : string) (s se ta tr s' se' ta' tr' : Z)
    (st st' : string) :
  py_in st sig_types = true -> py_in st' sig_types = true ->
  onedof_path root s se ta tr st = onedof_path root s' se' ta' tr' st' <->
  (s, se, ta, tr, st) = (s', se', ta', tr', st').
Proof.
  intros Hst Hst'. split; [|by intros [= -> -> -> -> ->]].
  intros H. unfold onedof_path in H. path_components H.
  rewrite !append_assoc in H. simpl in H.
  cut_at "_"%char in H as Hs. injection H as H.
  cut_at "/"%char in H as Hb. injection H as H.
  cut_at "_"%char in H as Ht. injection H as H.
  cut_at "_"%char in H as Hta. injection H as H.
  apply format_0d_inj in Hs. apply py_str_inj in Hb, Hta, H. congruence.
Qed.

Lemma onedof_path_injective_witness :
  onedof_path "/data" 1 2 3 4 "raw" = onedof_path "/data" 1 2 3 4 "force" <->
  (1, 2, 3, 4, "raw")%string = (1, 2, 3, 4, "force")%string.
Proof. apply (onedof_path_injective "/data" 1 2 3 4 1 2 3 4); reflexivity. Defined.

(** X9. Two valid calls of [load_mvc] under one root read the same record
    only when they name the same subject, session, finger, direction and
    signal type; the direction is any string. *)
Theorem mvc_path_injective (root : string) (s se ta s' se' ta' : Z)
    (d st d' st' : string) :
  py_in st sig_types = true -> py_in st' sig_types = true ->
  mvc_path root s se ta d st = mvc_path root s' se' ta' d' st' <->
  (s, se, ta, d, st) = (s', se', ta', d', st').
Proof.
  intros Hst Hst'. split; [|by intros [= -> -> -> -> ->]].
  intros H. unfold mvc_path in H. path_components H.
  rewrite !append_assoc in H. simpl in H.
  cut_at "_"%char in H as Hs. injection H as H.
  cut_at "/"%char in H as Hb. injection H as H.
  cut_at "_"%char in H as Ht. injection H as H.
  cut_at "_"%char in H as Hta.
  apply format_0d_inj in Hs. apply py_str_inj in Hb, Hta.
  assert (s = s') by lia. assert (se = se') by lia. congruence.
Qed.

Lemma mvc_path_injective_witness :
  mvc_path "/data" 0 1 3 "flexion" "raw" = mvc_path "/data" 0 1 3 "a/b" "raw" <->
  (0, 1, 3, "flexion", "raw")%string = (0, 1, 3, "a/b", "raw")%string.
Proof. apply (mvc_path_injective "/data" 0 1 3 0 1 3); reflexivity. Defined.

(** X10. Two valid calls of [load_ndof] under one root read the same record
    only when they name the same subject, session, combination, sample and
    signal type. *)
Theorem ndof_path_injective (root : string) (s se co tr s' se' co' tr' : Z)
    (st st' : string) :
  py_in st sig_types = true -> py_in st' sig_types = true ->
  ndof_path root s se co tr st = ndof_path root s' se' co' tr' st' <->
  (s, se, co, tr, st) = (s', se', co', tr', st').
Proof.
  intros Hst Hst'. split; [|by intros [= -> -> -> -> ->]].
  intros H. unfold ndof_path in H. path_components H.
  rewrite !append_assoc in H. simpl in H.
  cut_at "_"%char in H as Hs. injection H as H.
  cut_at "/"%char in H as Hb. injection H as H.
  cut_at "_"%char in H as Ht. injection H as H.
  cut_at "_"%char in H as Hco. injection H as H.
  apply format_0d_inj in Hs. apply py_str_inj in Hb, Hco, H. congruence.
Qed.

Lemma ndof_path_injective_witness :
  ndof_path "/data" (-1) 2 3 4 "raw" = ndof_path "/data" 1 2 3 4 "raw" <->
  (-1, 2, 3, 4, "raw")%string = (1, 2, 3, 4, "raw")%string.
Proof. apply (ndof_path_injective "/data" (-1) 2 3 4 1 2 3 4); reflexivity. Defined.

(** ** Loaders *)

Lemma lookup_grid {A : Type} (f : nat -> nat -> A) (s n m i j : nat) :
  (i < n)%nat -> (j < m)%nat ->
  concat ((fun i => f i <$> seq 0 m) <$> seq s n) !! (i * m + j)%nat = Some (f (s + i)%nat j).
Proof.
  revert s i. induction n as [|n IH]; intros s i Hi Hj; [lia|].
  simpl. destruct i as [|i].
  - rewrite lookup_app_l by (rewrite length_fmap, length_seq; lia).
    rewrite list_lookup_fmap, lookup_seq_lt by done. simpl. by rewrite Nat.add_0_r.
  - rewrite lookup_app_r by (rewrite length_fmap, length_seq; lia).
    rewrite length_fmap, length_seq.
    replace (S i * m + j - m)%nat with (i * m + j)%nat by lia.
    rewrite IH by lia. f_equal. f_equal. lia.
Qed.

Lemma length_grid {A : Type} (f : nat -> nat -> A) (s n m : nat) :
  length (concat ((fun i => f i <$> seq 0 m) <$> seq s n)) = (n * m)%nat.
Proof.
  revert s. induction n as [|n IH]; intros s; simpl; [done|].
  by rewrite length_app, length_fmap, length_seq, IH.
Qed.

(** [a.T] of a matrix swaps the two indices. *)
Lemma transpose_matrix (a : ndarray) (n m : nat) :
  shape a = [n; m] -> wf a ->
  ∃ b, transpose a = Ok b ∧ shape b = [m; n] ∧ wf b ∧
    ∀ i j, get2 b j i = get2 a i j.
Proof.
  intros Hsh Hwf. unfold transpose. rewrite Hsh. eexists. split; [done|].
  split; [done|]. split.
  { unfold wf. simpl. rewrite length_grid. lia. }
  intros i j. unfold get2. rewrite Hsh. simpl.
  destruct (decide (i < n ∧ j < m)%nat) as [[Hi Hj]|Hno].
  - rewrite !bool_decide_eq_true_2 by done.
    rewrite lookup_grid by done. simpl. unfold item.
    unfold wf in Hwf. rewrite Hsh in Hwf. simpl in Hwf.
    destruct (lookup_lt_is_Some_2 (data a) (i * m + j)%nat) as [v Hv]; [nia|].
    by rewrite Hv.
  - rewrite !bool_decide_eq_false_2 by tauto. done.
Qed.

Lemma read_transposed_matrix (E : Type) (rdsamp : string -> E + ndarray) (p : string) :
  (∀ data, rdsamp p = inr data -> wf data ∧ length (shape data) = 2%nat) ->
  returns_transposed (rdsamp p) (read_transposed E rdsamp p).
Proof.
  intros Hrec. unfold read_transposed, returns_transposed.
  destruct (rdsamp p) as [e|data]; [done|].
  destruct (Hrec data eq_refl) as [Hwf Hlen].
  destruct (shape data) as [|ns [|nc [|]]] eqn:Hsh; try done.
  destruct (transpose_matrix data ns nc Hsh Hwf) as (a & -> & Ha & Hwfa & Hget).
  exists a. by rewrite Ha.
Qed.

(** X11. With valid type names and a reader whose records are matrices,
    each loader hands over what the reader gives for the path of the
    loader: the exception of the reader, or the record transposed, entry
    [(c, t)] of the result being entry [(t, c)] of the record. *)
Theorem loaders_channels_first (E : Type) (rdsamp : string -> E + ndarray)
    (root : string) (g s se tr ta co : Z) (tt d st : string) :
  py_in tt task_types = true -> py_in st sig_types = true ->
  (∀ p data, rdsamp p = inr data -> wf data ∧ length (shape data) = 2%nat) ->
  returns_transposed (rdsamp (pr_path root g s se tr ta tt st))
    (load_pr E rdsamp root g s se tr ta tt st) ∧
  returns_transposed (rdsamp (onedof_path root s se ta tr st))
    (load_1dof E rdsamp root s se ta tr st) ∧
  returns_transposed (rdsamp (mvc_path root s se ta d st))
    (load_mvc E rdsamp root s se ta d st) ∧
  returns_transposed (rdsamp (ndof_path root s se co tr st))
    (load_ndof E rdsamp root s se co tr st).
Proof.
  intros Htt Hst Hrec. unfold load_pr, load_1dof, load_mvc, load_ndof.
  rewrite Htt, Hst. simpl.
  repeat split; apply read_transposed_matrix; intros data; apply Hrec.
Qed.

Lemma loaders_channels_first_witness :
  let rdsamp := fun p : string =>
    if String.eqb p "/data/1dof_dataset/subject01_session2/1dof_raw_finger3_sample4"
    then inr (of_rows 2 [[1; 2]; [3; 4]; [5; 6]]%float)
    else inl tt in
  returns_transposed (rdsamp (pr_path "/data" 5 1 2 4 3 "dynamic" "raw"))
    (load_pr unit rdsamp "/data" 5 1 2 4 3 "dynamic" "raw") ∧
  returns_transposed (rdsamp (onedof_path "/data" 1 2 3 4 "raw"))
    (load_1dof unit rdsamp "/data" 1 2 3 4 "raw") ∧
  returns_transposed (rdsamp (mvc_path "/data" 1 2 3 "flexion" "raw"))
    (load_mvc unit rdsamp "/data" 1 2 3 "flexion" "raw") ∧
  returns_transposed (rdsamp (ndof_path "/data" 1 2 6 4 "raw"))
    (load_ndof unit rdsamp "/data" 1 2 6 4 "raw").
Proof.
  apply (loaders_channels_first unit _ "/data" 5 1 2 4 3 6 "dynamic" "flexion" "raw");
    [reflexivity|reflexivity|].
  intros p data. destruct (String.eqb p _); [|discriminate].
  intros [= <-]. split; reflexivity.
Defined.

(** ** Subplot grids *)

(** X12. For a non-negative number of plots and at least one column the
    grid is computed, and every index [i + 1] that the loop over the plots
    passes to [plt.subplot] lies on the grid. *)
Theorem n_rows_fits (n n_cols : Z) :
  0 ≤ n -> 1 ≤ n_cols ->
  ∃ rows, n_rows n n_cols = inr rows ∧ 0 ≤ rows ∧
    ∀ i, i ∈ py_range n -> 1 ≤ i + 1 ≤ rows * n_cols.
Proof.
  intros Hn Hc. unfold n_rows.
  destruct (Z.eqb_spec n_cols 0) as [|_]; [lia|].
  pose proof (Z.div_mod n n_cols ltac:(lia)) as Hdm.
  pose proof (Z.mod_pos_bound n n_cols ltac:(lia)) as Hmod.
  assert (0 ≤ n / n_cols) as Hq by (apply Z.div_pos; lia).
  eexists. split; [done|].
  assert (∀ i, i ∈ py_range n -> 0 ≤ i < n) as Hrange.
  { intros i Hi. unfold py_range in Hi. apply list_elem_of_fmap in Hi as (k & -> & Hk).
    apply elem_of_seq in Hk. lia. }
  destruct (Z.eqb_spec (n mod n_cols) 0) as [H0|H0].
  - split; [done|]. intros i Hi%Hrange. nia.
  - split; [lia|]. intros i Hi%Hrange. nia.
Qed.

Lemma n_rows_fits_witness :
  ∃ rows, n_rows 5 3 = inr rows ∧ 0 ≤ rows ∧
    ∀ i, i ∈ py_range 5 -> 1 ≤ i + 1 ≤ rows * 3.
Proof. apply (n_rows_fits 5 3); lia. Defined.

(** X13. The grid has the rows that the plots need, and [n mod n_cols - 1]
    rows more when the last row holds two plots or more: the remainder is
    added where one row would do. *)
Theorem n_rows_excess (n n_cols : Z) :
  0 ≤ n -> 1 ≤ n_cols ->
  n_rows n n_cols = inr ((n + n_cols - 1) / n_cols + Z.max 0 (n mod n_cols - 1)).
Proof.
  intros Hn Hc. unfold n_rows.
  destruct (Z.eqb_spec n_cols 0) as [|_]; [lia|]. f_equal.
  pose proof (Z.div_mod n n_cols ltac:(lia)) as Hdm.
  pose proof (Z.mod_pos_bound n n_cols ltac:(lia)) as Hmod.
  destruct (Z.eqb_spec (n mod n_cols) 0) as [H0|H0].
  - rewrite H0. replace (n + n_cols - 1) with (n / n_cols * n_cols + (n_cols - 1)) by lia.
    rewrite Z.div_add_l by lia. rewrite (Z.div_small (n_cols - 1)) by lia. lia.
  - replace (n + n_cols - 1)
      with ((n / n_cols + 1) * n_cols + (n mod n_cols - 1)) by lia.
    rewrite Z.div_add_l by lia. rewrite (Z.div_small (n mod n_cols - 1)) by lia. lia.
Qed.

Lemma n_rows_excess_witness :
  n_rows 5 3 = inr ((5 + 3 - 1) / 3 + Z.max 0 (5 mod 3 - 1)).
Proof. apply (n_rows_excess 5 3); lia. Defined.
